(** * The transcript worker of [runpod/youtube-worker/handler.py]

    A shallow embedding of the handler and of the text functions it is
    built from, followed by the properties proved about them.

    Python's [str] is a sequence of Unicode code points: a character is
    its code point, a string is a list of them. *)

From Stdlib Require Import Strings.String Strings.Ascii.
From Stdlib Require Import List NArith Bool Arith Lia.
Import ListNotations.

(* ================================================================== *)
(** * Part I.  The model                                               *)
(* ================================================================== *)

(** ** Characters and strings *)

Definition char := N.
Definition str := list char.

Definition LF : char := 10%N.
Definition CR : char := 13%N.
Definition SP : char := 32%N.
Definition BACKSLASH : char := 92%N.

(** A string literal of the source, written with Python's escapes
    [\n], [\r], [\t] and [\\]. *)
Fixpoint lit_chars (l : list ascii) : str :=
  match l with
  | [] => []
  | a :: r =>
      match r with
      | b :: r' =>
          if N.eqb (N_of_ascii a) BACKSLASH then
            if N.eqb (N_of_ascii b) 110%N then LF :: lit_chars r'
            else if N.eqb (N_of_ascii b) 114%N then CR :: lit_chars r'
            else if N.eqb (N_of_ascii b) 116%N then 9%N :: lit_chars r'
            else if N.eqb (N_of_ascii b) BACKSLASH then BACKSLASH :: lit_chars r'
            else N_of_ascii a :: lit_chars r
          else N_of_ascii a :: lit_chars r
      | [] => [N_of_ascii a]
      end
  end.

Definition lit (s : string) : str := lit_chars (list_ascii_of_string s).

(** [a == b] *)
Fixpoint str_eqb (a b : str) : bool :=
  match a, b with
  | [], [] => true
  | x :: a', y :: b' => N.eqb x y && str_eqb a' b'
  | _, _ => false
  end.

(** [bool(s)] of a string: non-empty. *)
Definition truthy (s : str) : bool :=
  match s with [] => false | _ :: _ => true end.

(** [Py_UNICODE_ISSPACE]: the characters [str.strip()] removes and the
    class [\s] of a [str] pattern matches. *)
Definition in_range (lo hi c : char) : bool := N.leb lo c && N.leb c hi.

Definition is_space (c : char) : bool :=
  in_range 9%N 13%N c                  (* \t \n \v \f \r *)
  || in_range 28%N 32%N c              (* FS GS RS US and the space *)
  || N.eqb c 133%N || N.eqb c 160%N    (* NEL, no-break space *)
  || N.eqb c 5760%N
  || in_range 8192%N 8202%N c
  || N.eqb c 8232%N || N.eqb c 8233%N || N.eqb c 8239%N || N.eqb c 8287%N
  || N.eqb c 12288%N.

Fixpoint drop_while (p : char -> bool) (s : str) : str :=
  match s with
  | [] => []
  | c :: r => if p c then drop_while p r else s
  end.

Fixpoint take_while (p : char -> bool) (s : str) : str :=
  match s with
  | [] => []
  | c :: r => if p c then c :: take_while p r else []
  end.

Definition lstrip (s : str) : str := drop_while is_space s.
Definition rstrip (s : str) : str := rev (drop_while is_space (rev s)).
(** [s.strip()] *)
Definition strip (s : str) : str := rstrip (lstrip s).

Fixpoint starts_with (p s : str) : bool :=
  match p, s with
  | [], _ => true
  | a :: p', b :: s' => N.eqb a b && starts_with p' s'
  | _ :: _, [] => false
  end.

Definition ends_with (p s : str) : bool := starts_with (rev p) (rev s).

(** [p in s] *)
Fixpoint contains (p s : str) : bool :=
  starts_with p s || match s with [] => false | _ :: r => contains p r end.

(** [sep.join(parts)] *)
Fixpoint join (sep : str) (parts : list str) : str :=
  match parts with
  | [] => []
  | [p] => p
  | p :: rest => p ++ sep ++ join sep rest
  end.

(** [s.split("\n")] *)
Fixpoint split_lines (s : str) : list str :=
  match s with
  | [] => [[]]
  | c :: r =>
      if N.eqb c LF then [] :: split_lines r
      else match split_lines r with
           | l :: ls => (c :: l) :: ls
           | [] => [[c]]
           end
  end.

(** [s.replace("\r\n", "\n")] *)
Fixpoint replace_crlf (s : str) : str :=
  match s with
  | [] => []
  | c :: r =>
      match r with
      | d :: r' => if N.eqb c CR && N.eqb d LF then LF :: replace_crlf r'
                   else c :: replace_crlf r
      | [] => [c]
      end
  end.

(** ** Regular expressions

    [re.sub(pattern, repl, t)] scans [t] from left to right; where the
    pattern matches it writes [repl] and goes on after the match, elsewhere
    it copies one character.  A pattern is given by its matcher: the length
    of its match at the head of the rest of the text, knowing the character
    before it ([None] at the start of the text, which is what [^] looks
    at).  None of the patterns of the source matches the empty string. *)

Definition matcher := option char -> str -> option nat.

Fixpoint re_sub_from (m : matcher) (repl : str) (skip : nat)
         (prev : option char) (t : str) : str :=
  match t with
  | [] => []
  | c :: r =>
      match skip with
      | S k => re_sub_from m repl k (Some c) r
      | O =>
          match m prev t with
          | Some (S k) => repl ++ re_sub_from m repl k (Some c) r
          | _ => c :: re_sub_from m repl 0 (Some c) r
          end
      end
  end.

Definition re_sub (m : matcher) (repl t : str) : str :=
  re_sub_from m repl 0 None t.

(** [\s+], greedy: the longest run of whitespace, at least one. *)
Definition ws_plus : matcher := fun _ t =>
  match length (take_while is_space t) with
  | O => None
  | n => Some n
  end.

(** [[\s\S]*?\n\n], lazy: up to the end of the first pair of newlines. *)
Fixpoint lazy_blank (t : str) : option nat :=
  match t with
  | [] => None
  | c :: r =>
      match r with
      | d :: _ =>
          if N.eqb c LF && N.eqb d LF then Some 2
          else option_map S (lazy_blank r)
      | [] => None
      end
  end.

(** A literal keyword followed by [[\s\S]*?\n\n]. *)
Definition keyword_block (kw : str) (t : str) : option nat :=
  if starts_with kw t
  then option_map (Nat.add (length kw)) (lazy_blank (skipn (length kw) t))
  else None.

(** [^WEBVTT[\s\S]*?\n\n]: [^] is the start of the text. *)
Definition header_re : matcher := fun prev t =>
  match prev with
  | None => keyword_block (lit "WEBVTT") t
  | Some _ => None
  end.

(** [^NOTE[\s\S]*?\n\n] with [re.MULTILINE]: [^] is the start of the
    text or of a line. *)
Definition note_re : matcher := fun prev t =>
  match prev with
  | None => keyword_block (lit "NOTE") t
  | Some p => if N.eqb p LF then keyword_block (lit "NOTE") t else None
  end.

Definition LT : char := 60%N.
Definition GT : char := 62%N.

(** [<[^>]+>]: a [<], one or more characters other than [>], a [>]. *)
Definition tag_re : matcher := fun _ t =>
  match t with
  | [] => None
  | c :: r =>
      if N.eqb c LT then
        let inner := take_while (fun x => negb (N.eqb x GT)) r in
        match inner, skipn (length inner) r with
        | _ :: _, _ :: _ => Some (length inner + 2)
        | _, _ => None
        end
      else None
  end.

(** ** [_clean_text] *)

Definition _clean_text (s : str) : str :=
  re_sub ws_plus [SP] (strip s).

(** ** [_parse_vtt_to_text] *)

Definition is_ascii_digit (c : char) : bool := in_range 48%N 57%N c.

(** [Py_UNICODE_ISDECIMAL], the class [\d] of a [str] pattern: the
    characters of Unicode's category Nd.  The table belongs to the
    interpreter; what is used of it here is that below 128 it holds the
    digits [0] to [9] and nothing else. *)
Record UnicodeData := {
  isdecimal : char -> bool;
  isdecimal_ascii :
    forall c, N.ltb c 128%N = true -> isdecimal c = is_ascii_digit c
}.

(** [re.fullmatch(r"\d+", line)] *)
Definition fullmatch_digits (U : UnicodeData) (line : str) : bool :=
  truthy line && forallb (isdecimal U) line.

(** The body of the [for] loop: [out_lines] after one more line. *)
Definition cue_line (U : UnicodeData) (out_lines : list str) (line : str)
  : list str :=
  let line := strip line in
  if negb (truthy line) then out_lines
  else if contains (lit "-->") line then out_lines
  else if fullmatch_digits U line then out_lines
  else
    let line := re_sub tag_re [] line in
    if truthy line then out_lines ++ [line] else out_lines.

Definition _parse_vtt_to_text (U : UnicodeData) (vtt : str) : str :=
  let t := replace_crlf vtt in
  let t := re_sub header_re [] t in
  let t := re_sub note_re [] t in
  let out_lines := fold_left (cue_line U) (split_lines t) [] in
  _clean_text (join [SP] out_lines).

(** ** The collaborators and the working directory *)

(** The exceptions the handler can meet. *)
Inductive Exn :=
| CalledProcessError            (* [check=True]: a non-zero exit status *)
| TimeoutExpired                (* [timeout=...]: the time limit passed *)
| RuntimeError (msg : str)
| OtherError (what : str).      (* [OSError], [ImportError], a fault of the model *)

(** The working directory: its entries in the order a scan ([os.scandir],
    which [glob] reads) yields them, each with the text [f.read()]
    returns for it. *)
Definition Dir := list (str * str).

(** One call of a collaborator. *)
Inductive Call :=
| CallYtDlp (cmd : list str) (cwd : str) (timeout : nat)
| CallWhisper (model_name device compute_type audio_path : str).

Definition is_whisper_call (c : Call) : bool :=
  match c with CallWhisper _ _ _ _ => true | CallYtDlp _ _ _ => false end.

(** What lies outside the handler: the path of the temporary directory,
    what a run of [yt-dlp] leaves in the directory and whether
    [subprocess.run] raises for it, the process environment, and the
    segment texts the speech model yields for an audio file. *)
Record World := {
  tmpdir : str;
  yt_dlp : list str -> nat -> Dir -> Dir * option Exn;
  environ : str -> option str;
  whisper : str -> str -> str -> str -> Dir -> Exn + list str
}.

Record State := {
  files : Dir;              (* the entries of the working directory *)
  tmp_live : bool;          (* the temporary directory exists *)
  calls : list Call         (* the collaborators called so far, oldest first *)
}.

Inductive Res (A : Type) :=
| Val (a : A)
| Exc (e : Exn).
Arguments Val {A} a.
Arguments Exc {A} e.

(** A computation: it returns or raises, and leaves a state. *)
Definition M (A : Type) := State -> Res A * State.

Definition ret {A} (a : A) : M A := fun st => (Val a, st).
Definition raise {A} (e : Exn) : M A := fun st => (Exc e, st).
Definition bind {A B} (m : M A) (k : A -> M B) : M B := fun st =>
  match m st with
  | (Val a, st') => k a st'
  | (Exc e, st') => (Exc e, st')
  end.

Notation "x <- m ;; k" := (bind m (fun x => k))
  (at level 61, m at next level, right associativity).
Notation "m ;;; k" := (bind m (fun _ => k))
  (at level 61, right associativity).

(** [try: m  except Exception: pass] *)
Definition try_pass (m : M unit) : M unit := fun st =>
  match m st with
  | (Val _, st') => (Val tt, st')
  | (Exc _, st') => (Val tt, st')
  end.

(** [with tempfile.TemporaryDirectory() as workdir: body]: a fresh empty
    directory, removed with all its files however the body ends. *)
Definition with_tempdir {A} (W : World) (body : str -> M A) : M A := fun st =>
  let (r, st') :=
    body (tmpdir W) {| files := []; tmp_live := true; calls := calls st |} in
  (r, {| files := []; tmp_live := false; calls := calls st' |}).

Definition SLASH : char := 47%N.
Definition DOT : char := 46%N.

(** [os.path.join(a, b)] *)
Definition path_join (a b : str) : str :=
  if starts_with [SLASH] b then b
  else if negb (truthy a) || ends_with [SLASH] a then a ++ b
  else a ++ [SLASH] ++ b.

(** [fnmatch] of a name against the pattern [pre*suf]. *)
Definition fnmatch_star (pre suf name : str) : bool :=
  starts_with pre name && ends_with suf name
  && Nat.leb (length pre + length suf) (length name).

(** [glob.glob(os.path.join(workdir, pre + "*" + suf))]: the entries whose
    name matches, in scan order, as paths; a name that starts with a dot
    is not listed. *)
Definition glob_star (workdir pre suf : str) (d : Dir) : list str :=
  map (path_join workdir)
      (filter (fun name => negb (starts_with [DOT] name)
                           && fnmatch_star pre suf name)
              (map fst d)).

Definition glob (workdir pre suf : str) : M (list str) := fun st =>
  (Val (glob_star workdir pre suf (files st)), st).

(** [open(path, "r", encoding="utf-8", errors="ignore")] and [f.read()] *)
Definition read_text (workdir path : str) : M str := fun st =>
  match find (fun e => str_eqb (path_join workdir (fst e)) path) (files st) with
  | Some e => (Val (snd e), st)
  | None => (Exc (OtherError (lit "FileNotFoundError")), st)
  end.

(** ** [_run] *)

Definition _run (W : World) (cmd : list str) (cwd : str) (timeout : nat)
  : M unit := fun st =>
  let (d, failure) := yt_dlp W cmd timeout (files st) in
  let st' := {| files := d; tmp_live := tmp_live st;
                calls := calls st ++ [CallYtDlp cmd cwd timeout] |} in
  match failure with
  | None => (Val tt, st')
  | Some e => (Exc e, st')
  end.

(** ** [_download_subtitles] *)

Definition subs_cmd (kind lang base_out youtube_url : str) : list str :=
  [lit "yt-dlp"; lit "--no-playlist"; lit "--skip-download"; kind;
   lit "--sub-lang"; lang; lit "--sub-format"; lit "vtt";
   lit "-o"; base_out; youtube_url].

(** The [for] loop with its [return p], then [return vtts[0]]. *)
Definition pick_vtt (lang : str) (vtts : list str) : option str :=
  match find (fun p => contains ([DOT] ++ lang ++ [DOT]) p) vtts with
  | Some p => Some p
  | None => hd_error vtts
  end.

Definition _download_subtitles (W : World) (youtube_url workdir lang : str)
  : M (option str) :=
  let base_out := path_join workdir (lit "subs.%(language)s.%(ext)s") in
  try_pass (_run W (subs_cmd (lit "--write-subs") lang base_out youtube_url)
                 workdir 90) ;;;
  try_pass (_run W (subs_cmd (lit "--write-auto-subs") lang base_out youtube_url)
                 workdir 90) ;;;
  vtts <- glob workdir (lit "subs.") (lit ".vtt") ;;
  vtts <- (if negb (match vtts with [] => false | _ => true end)
           then glob workdir [] (lit ".vtt") else ret vtts) ;;
  match vtts with
  | [] => ret None
  | _ :: _ => ret (pick_vtt lang vtts)
  end.

(** ** [_download_audio] *)

Definition audio_cmd (out_tmpl youtube_url : str) : list str :=
  [lit "yt-dlp"; lit "--no-playlist"; lit "-f"; lit "bestaudio";
   lit "-o"; out_tmpl; youtube_url].

Definition _download_audio (W : World) (youtube_url workdir : str) : M str :=
  let out_tmpl := path_join workdir (lit "audio.%(ext)s") in
  _run W (audio_cmd out_tmpl youtube_url) workdir 180 ;;;
  candidates <- glob workdir (lit "audio.") [] ;;
  match candidates with
  | [] => raise (RuntimeError (lit "Audio download produced no file"))
  | first :: _ => ret first
  end.

(** ** [_transcribe_with_faster_whisper] *)

(** [os.environ.get(key, default)] *)
Definition environ_get (W : World) (key default : str) : str :=
  match environ W key with Some v => v | None => default end.

(** The import, [WhisperModel(...)], [model.transcribe(audio_path,
    vad_filter=True)] and the walk through its segments. *)
Definition transcribe (W : World) (model_name device compute_type audio_path : str)
  : M (list str) := fun st =>
  let st' := {| files := files st; tmp_live := tmp_live st;
                calls := calls st
                         ++ [CallWhisper model_name device compute_type audio_path] |} in
  match whisper W model_name device compute_type audio_path (files st) with
  | inr segments => (Val segments, st')
  | inl e => (Exc e, st')
  end.

Definition _transcribe_with_faster_whisper (W : World) (audio_path : str)
  : M str :=
  let model_name := environ_get W (lit "WHISPER_MODEL") (lit "small") in
  let device := environ_get W (lit "WHISPER_DEVICE") (lit "cuda") in
  let compute_type := environ_get W (lit "WHISPER_COMPUTE_TYPE") (lit "float16") in
  segments <- transcribe W model_name device compute_type audio_path ;;
  let parts :=
    fold_left (fun parts seg => if truthy seg then parts ++ [seg] else parts)
              segments [] in
  ret (_clean_text (join [SP] parts)).

(** ** [handler] *)

(** The event: [{"input": {"youtubeUrl": ..., "lang": ...}}] with string
    values; [None] is a key that is absent or holds [None]. *)
Record Input := {
  youtubeUrl : option str;
  lang_hint : option str
}.

Record Event := { input : option Input }.

(** [x or default] for an optional string. *)
Definition or_else (x : option str) (default : str) : str :=
  match x with
  | Some s => if truthy s then s else default
  | None => default
  end.

(** A returned [dict], its items in the order they are written. *)
Definition Dict := list (str * str).

Fixpoint dict_get (key : str) (d : Dict) : option str :=
  match d with
  | [] => None
  | (k, v) :: r => if str_eqb k key then Some v else dict_get key r
  end.

Definition transcript_dict (text method lang : str) : Dict :=
  [(lit "transcript", text); (lit "method", method); (lit "lang", lang)].

Definition error_dict (msg : str) : Dict := [(lit "error", msg)].

(** The second tier, [# 2) ASR fallback]: download audio and transcribe. *)
Definition asr_fallback (W : World) (youtube_url workdir lang : str) : M Dict :=
  audio_path <- _download_audio W youtube_url workdir ;;
  text <- _transcribe_with_faster_whisper W audio_path ;;
  if negb (truthy text) then
    ret (error_dict (lit "ASR returned empty transcript"))
  else ret (transcript_dict text (lit "asr") lang).

Definition handler (U : UnicodeData) (W : World) (event : option Event)
  : M Dict :=
  let inp :=
    match event with
    | Some ev => match input ev with
                 | Some i => i
                 | None => {| youtubeUrl := None; lang_hint := None |}
                 end
    | None => {| youtubeUrl := None; lang_hint := None |}
    end in
  let youtube_url := strip (or_else (youtubeUrl inp) []) in
  let lang :=
    let l := strip (or_else (lang_hint inp) (lit "en")) in
    if truthy l then l else lit "en" in
  if negb (truthy youtube_url) then
    ret (error_dict (lit "Missing input.youtubeUrl"))
  else
    with_tempdir W (fun workdir =>
      (* 1) Subtitles *)
      vtt_path <- _download_subtitles W youtube_url workdir lang ;;
      match vtt_path with
      | Some path =>
          if truthy path then
            raw <- read_text workdir path ;;
            let text := _parse_vtt_to_text U raw in
            if truthy text then
              ret (transcript_dict text (lit "subtitles") lang)
            else asr_fallback W youtube_url workdir lang
          else asr_fallback W youtube_url workdir lang
      | None => asr_fallback W youtube_url workdir lang
      end).

Definition initial : State :=
  {| files := []; tmp_live := false; calls := [] |}.

(** One request, from the state a fresh invocation starts in. *)
Definition run_handler (U : UnicodeData) (W : World) (event : option Event)
  : Res Dict * State :=
  handler U W event initial.

(** ** Definitions the statements are written with *)

(** The interpreter's table restricted to what is known of it: the ASCII
    digits alone. *)
Definition ascii_data : UnicodeData :=
  {| isdecimal := is_ascii_digit;
     isdecimal_ascii := fun c _ => eq_refl |}.

Definition is_ascii (c : char) : bool := N.ltb c 128%N.

(** The words of a string: its maximal runs of characters that are not
    whitespace, in order (what [s.split()] returns). *)
Fixpoint words (s : str) : list str :=
  match s with
  | [] => []
  | c :: r =>
      if is_space c then words r
      else match r with
           | [] => [[c]]
           | d :: _ =>
               if is_space d then [c] :: words r
               else match words r with
                    | w :: ws => (c :: w) :: ws
                    | [] => [[c]]
                    end
           end
  end.

(** The words written one after the other with one space between two. *)
Definition unwords (ws : list str) : str := join [SP] ws.

(** A word: not empty, no whitespace in it. *)
Definition is_word (w : str) : bool :=
  truthy w && forallb (fun c => negb (is_space c)) w.

(** Whitespace squeezed in one pass; [in_run] says the character before
    was whitespace. *)
Fixpoint squeeze (in_run : bool) (t : str) : str :=
  match t with
  | [] => []
  | c :: r =>
      if is_space c
      then (if in_run then squeeze true r else SP :: squeeze true r)
      else c :: squeeze false r
  end.

(** No whitespace at the end. *)
Fixpoint no_trail (t : str) : bool :=
  match t with
  | [] => true
  | c :: r => match r with [] => negb (is_space c) | _ :: _ => no_trail r end
  end.

Definition not_space (c : char) : bool := negb (is_space c).

(** A text in which whitespace is single spaces between other characters;
    [after_space] says the text follows a space or starts the string. *)
Fixpoint single_spaced (after_space : bool) (t : str) : bool :=
  match t with
  | [] => negb after_space
  | c :: r =>
      if is_space c
      then N.eqb c SP && negb after_space && single_spaced true r
      else single_spaced false r
  end.

(** Normal form: empty, or neither starting nor ending with whitespace
    and with no whitespace but single spaces. *)
Definition normalized (t : str) : bool :=
  match t with
  | [] => true
  | _ :: _ => single_spaced true t
  end.

(** The document once line ends are normalised and the header and the
    NOTE blocks are taken out: the text the loop over the lines reads. *)
Definition body (vtt : str) : str :=
  re_sub note_re [] (re_sub header_re [] (replace_crlf vtt)).

(** A trimmed line that is neither a timing line nor a cue number. *)
Definition kept (U : UnicodeData) (line : str) : bool :=
  negb (contains (lit "-->") line) && negb (fullmatch_digits U line).

(** What one line adds to [out_lines]. *)
Definition cue (U : UnicodeData) (line : str) : list str :=
  cue_line U [] line.

(** ** What a request meets: the statements' vocabulary *)

(** The state the body of the [with] block starts in. *)
Definition fresh (cs : list Call) : State :=
  {| files := []; tmp_live := true; calls := cs |}.

Definition subs_template (workdir : str) : str :=
  path_join workdir (lit "subs.%(language)s.%(ext)s").

Definition manual_call (youtube_url workdir lang : str) : Call :=
  CallYtDlp (subs_cmd (lit "--write-subs") lang (subs_template workdir) youtube_url)
            workdir 90.

Definition auto_call (youtube_url workdir lang : str) : Call :=
  CallYtDlp (subs_cmd (lit "--write-auto-subs") lang (subs_template workdir) youtube_url)
            workdir 90.

Definition audio_call (youtube_url workdir : str) : Call :=
  CallYtDlp (audio_cmd (path_join workdir (lit "audio.%(ext)s")) youtube_url)
            workdir 180.

(** The directory after the two caption runs, started from [d]. *)
Definition subs_dir (W : World) (youtube_url workdir lang : str) (d : Dir) : Dir :=
  fst (yt_dlp W (subs_cmd (lit "--write-auto-subs") lang (subs_template workdir) youtube_url) 90
         (fst (yt_dlp W (subs_cmd (lit "--write-subs") lang (subs_template workdir) youtube_url) 90 d))).

(** The candidates: the strict scan, or the broad one when the strict
    scan finds nothing. *)
Definition candidates (workdir : str) (d : Dir) : list str :=
  match glob_star workdir (lit "subs.") (lit ".vtt") d with
  | [] => glob_star workdir [] (lit ".vtt") d
  | strict => strict
  end.

(** The path names the language: it holds [.lang.] *)
Definition embeds (lang path : str) : bool :=
  contains ([DOT] ++ lang ++ [DOT]) path.

(** The text of the file at a path of the working directory. *)
Definition file_text (workdir : str) (d : Dir) (path : str) : option str :=
  option_map snd
    (find (fun e => str_eqb (path_join workdir (fst e)) path) d).

(** The request as the handler reads it. *)
Definition request_input (event : option Event) : Input :=
  match event with
  | Some ev => match input ev with
               | Some i => i
               | None => {| youtubeUrl := None; lang_hint := None |}
               end
  | None => {| youtubeUrl := None; lang_hint := None |}
  end.

(** The source URL, trimmed; empty when missing or blank. *)
Definition request_url (event : option Event) : str :=
  match youtubeUrl (request_input event) with
  | Some u => strip u
  | None => []
  end.

(** The language of the request: the hint, trimmed, or ["en"] when the
    hint is absent or blank. *)
Definition request_lang (event : option Event) : str :=
  match lang_hint (request_input event) with
  | Some h => match strip h with [] => lit "en" | l => l end
  | None => lit "en"
  end.

Section Request.
Variables (U : UnicodeData) (W : World) (event : option Event).

Let url := request_url event.
Let lang := request_lang event.
Let workdir := tmpdir W.

(** The working directory when the caption tier is over. *)
Definition caption_dir : Dir := subs_dir W url workdir lang [].

(** The caption file the fetcher returns, if any. *)
Definition caption_asset : option str :=
  pick_vtt lang (candidates workdir caption_dir).

(** The text the caption tier recovers; [None] without an asset. *)
Definition caption_text : option str :=
  match caption_asset with
  | Some path =>
      option_map (_parse_vtt_to_text U) (file_text workdir caption_dir path)
  | None => None
  end.

(** The caption tier recovered text that is not empty. *)
Definition captions_usable : bool :=
  match caption_text with
  | Some text => truthy text
  | None => false
  end.

(** The audio run: the directory it leaves and the exception
    [subprocess.run] raises for it, if any. *)
Definition audio_run : Dir * option Exn :=
  yt_dlp W (audio_cmd (path_join workdir (lit "audio.%(ext)s")) url) 180
         caption_dir.

(** The files the scan for [audio.*] finds after the audio run. *)
Definition audio_files : list str :=
  glob_star workdir (lit "audio.") [] (fst audio_run).

(** What the speech model yields for an audio file. *)
Definition asr_run (audio_path : str) : Exn + list str :=
  whisper W (environ_get W (lit "WHISPER_MODEL") (lit "small"))
            (environ_get W (lit "WHISPER_DEVICE") (lit "cuda"))
            (environ_get W (lit "WHISPER_COMPUTE_TYPE") (lit "float16"))
            audio_path (fst audio_run).

Definition asr_call (audio_path : str) : Call :=
  CallWhisper (environ_get W (lit "WHISPER_MODEL") (lit "small"))
              (environ_get W (lit "WHISPER_DEVICE") (lit "cuda"))
              (environ_get W (lit "WHISPER_COMPUTE_TYPE") (lit "float16"))
              audio_path.
End Request.

(** What the speech model yields for an audio file in a directory [d],
    configured from the environment. *)
Definition asr_run_in (W : World) (d : Dir) (audio_path : str) : Exn + list str :=
  whisper W (environ_get W (lit "WHISPER_MODEL") (lit "small"))
            (environ_get W (lit "WHISPER_DEVICE") (lit "cuda"))
            (environ_get W (lit "WHISPER_COMPUTE_TYPE") (lit "float16"))
            audio_path d.

(** The text made of the segments of the speech model. *)
Definition asr_text (segments : list str) : str :=
  _clean_text (join [SP] (filter truthy segments)).

Definition asr_invoked (st : State) : bool :=
  existsb is_whisper_call (calls st).

Definition has_key (key : str) (d : Dict) : bool :=
  match dict_get key d with Some _ => true | None => false end.

(** A transcript result record. *)
Definition is_transcript (d : Dict) : bool := has_key (lit "transcript") d.
(** An error record. *)
Definition is_error (d : Dict) : bool := has_key (lit "error") d.

(** A state after one more call, which left the directory [d]. *)
Definition with_call (st : State) (d : Dir) (c : Call) : State :=
  {| files := d; tmp_live := tmp_live st; calls := calls st ++ [c] |}.

(** The state a request ends in: the directory gone, the calls made. *)
Definition final (cs : list Call) : State :=
  {| files := []; tmp_live := false; calls := cs |}.

(** The outcome of the second tier: the audio run, the scan for its
    file, the speech model. *)
Definition outcome_fallback (W : World) (event : option Event)
  : Res Dict * State :=
  let url := request_url event in
  let lang := request_lang event in
  let workdir := tmpdir W in
  let fallback_calls :=
    [manual_call url workdir lang; auto_call url workdir lang;
     audio_call url workdir] in
  match snd (audio_run W event) with
  | Some e => (Exc e, final fallback_calls)
  | None =>
      match audio_files W event with
      | [] => (Exc (RuntimeError (lit "Audio download produced no file")),
               final fallback_calls)
      | audio_path :: _ =>
          let cs := fallback_calls ++ [asr_call W audio_path] in
          match asr_run W event audio_path with
          | inl e => (Exc e, final cs)
          | inr segments =>
              match asr_text segments with
              | [] => (Val (error_dict (lit "ASR returned empty transcript")),
                       final cs)
              | text => (Val (transcript_dict text (lit "asr") lang), final cs)
              end
          end
      end
  end.

(** The outcome of a request, case by case: what is returned or raised,
    and the state left. *)
Definition outcome (U : UnicodeData) (W : World) (event : option Event)
  : Res Dict * State :=
  let url := request_url event in
  let lang := request_lang event in
  let workdir := tmpdir W in
  if negb (truthy url) then
    (Val (error_dict (lit "Missing input.youtubeUrl")), initial)
  else
    match caption_text U W event with
    | Some (c :: text) =>
        (Val (transcript_dict (c :: text) (lit "subtitles") lang),
         final [manual_call url workdir lang; auto_call url workdir lang])
    | _ => outcome_fallback W event
    end.

(** ** Sorted order *)

(** [a <= b] on strings: by code points, a prefix first. *)
Fixpoint str_leb (a b : str) : bool :=
  match a, b with
  | [], _ => true
  | _ :: _, [] => false
  | x :: a', y :: b' => N.ltb x y || (N.eqb x y && str_leb a' b')
  end.

Fixpoint insert_sorted (p : str) (l : list str) : list str :=
  match l with
  | [] => [p]
  | q :: r => if str_leb p q then p :: l else q :: insert_sorted p r
  end.

(** [sorted(l)] *)
Definition sorted (l : list str) : list str :=
  fold_right insert_sorted [] l.

(** ** Sample worlds and requests *)

Definition has_arg (arg : str) (cmd : list str) : bool :=
  existsb (str_eqb arg) cmd.

Definition no_environ : str -> option str := fun _ => None.

Definition request (url : str) (hint : option str) : option Event :=
  Some {| input := Some {| youtubeUrl := Some url; lang_hint := hint |} |}.

Definition sample_url : str := lit "https://youtu.be/dQw4w9WgXcQ".

(** No captions, and the audio run ends with a non-zero status. *)
Definition world_audio_fails : World :=
  {| tmpdir := lit "/tmp/tmpk3v9x0qa";
     yt_dlp := fun _ _ d => (d, Some CalledProcessError);
     environ := no_environ;
     whisper := fun _ _ _ _ _ => inr [] |}.

(** No captions; the audio run ends well and leaves no file. *)
Definition world_no_audio_file : World :=
  {| tmpdir := lit "/tmp/tmpk3v9x0qa";
     yt_dlp := fun cmd _ d =>
       if has_arg (lit "bestaudio") cmd then (d, None)
       else (d, Some CalledProcessError);
     environ := no_environ;
     whisper := fun _ _ _ _ _ => inr [lit "never heard"] |}.

(** No captions; the audio run leaves [audio.webm]; the model yields the
    given segments. *)
Definition world_asr (segments : list str) : World :=
  {| tmpdir := lit "/tmp/tmpk3v9x0qa";
     yt_dlp := fun cmd _ d =>
       if has_arg (lit "bestaudio") cmd
       then (d ++ [(lit "audio.webm", lit "(opus)")], None)
       else (d, Some CalledProcessError);
     environ := no_environ;
     whisper := fun _ _ _ _ _ => inr segments |}.

(** The manual run leaves the given caption files, the automatic run
    fails; the audio run and the model are as in [world_asr]. *)
Definition world_captions (subs : Dir) (segments : list str) : World :=
  {| tmpdir := lit "/tmp/tmpk3v9x0qa";
     yt_dlp := fun cmd _ d =>
       if has_arg (lit "bestaudio") cmd
       then (d ++ [(lit "audio.webm", lit "(opus)")], None)
       else if has_arg (lit "--write-subs") cmd then (d ++ subs, None)
       else (d, Some CalledProcessError);
     environ := no_environ;
     whisper := fun _ _ _ _ _ => inr segments |}.

Definition bonjour_vtt : str :=
  lit "WEBVTT\n\n00:00:01.000 --> 00:00:02.000\nBonjour\n".

(** The caption run leaves a French and a German file, in this order of
    the scan. *)
Definition world_fr_de : World :=
  world_captions [(lit "subs.fr.vtt", bonjour_vtt);
                  (lit "subs.de.vtt", bonjour_vtt)] [].

(* ================================================================== *)
(** * Part II.  Properties                                             *)
(* ================================================================== *)

(** ** Whitespace *)

Lemma SP_is_space : is_space SP = true.
Proof. reflexivity. Qed.

Lemma LF_is_space : is_space LF = true.
Proof. reflexivity. Qed.

Lemma ws_plus_squeeze (t : str) :
  (forall prev, re_sub_from ws_plus [SP] 0 prev t = squeeze false t)
  /\ (forall prev, re_sub_from ws_plus [SP] (length (take_while is_space t)) prev t
                   = squeeze true t).
Proof.
  induction t as [|c r [IH0 IH1]]; [split; reflexivity|].
  split; intros prev; cbn [re_sub_from squeeze take_while].
  - unfold ws_plus at 1. cbn [take_while].
    destruct (is_space c); cbn [length].
    + rewrite IH1. reflexivity.
    + rewrite IH0. reflexivity.
  - destruct (is_space c) eqn:E; cbn [length].
    + apply IH1.
    + unfold ws_plus at 1. cbn [take_while]. rewrite E. cbn [length].
      rewrite IH0. reflexivity.
Qed.

Lemma re_sub_ws_plus (t : str) : re_sub ws_plus [SP] t = squeeze false t.
Proof. apply ws_plus_squeeze. Qed.

Lemma drop_while_snoc (p : char -> bool) (a : str) (c : char) :
  drop_while p (a ++ [c])
  = match drop_while p a with
    | [] => if p c then [] else [c]
    | _ :: _ => drop_while p a ++ [c]
    end.
Proof.
  induction a as [|x a IH]; cbn [app drop_while].
  - reflexivity.
  - destruct (p x); [exact IH | reflexivity].
Qed.

Lemma rstrip_cons (c : char) (r : str) :
  rstrip (c :: r)
  = match rstrip r with
    | [] => if is_space c then [] else [c]
    | _ :: _ => c :: rstrip r
    end.
Proof.
  unfold rstrip. cbn [rev]. rewrite drop_while_snoc.
  destruct (drop_while is_space (rev r)) as [|x l] eqn:E.
  - cbn [rev]. destruct (is_space c); reflexivity.
  - rewrite rev_app_distr. cbn [rev app].
    destruct (rev l ++ [x]) eqn:E'.
    + destruct (rev l); discriminate.
    + reflexivity.
Qed.

Lemma rstrip_nil : rstrip [] = [].
Proof. reflexivity. Qed.

Lemma no_trail_rstrip (s : str) : no_trail (rstrip s) = true.
Proof.
  induction s as [|c r IH]; [reflexivity|].
  rewrite rstrip_cons. destruct (rstrip r) as [|x l] eqn:E.
  - destruct (is_space c) eqn:Ec; cbn; [reflexivity | now rewrite Ec].
  - exact IH.
Qed.

Lemma words_all_space (s : str) :
  forallb is_space s = true -> words s = [].
Proof.
  induction s as [|c r IH]; cbn [forallb words]; [reflexivity|].
  intros H. apply andb_true_iff in H as [Hc Hr]. rewrite Hc. auto.
Qed.

Lemma rstrip_empty_all_space (s : str) :
  rstrip s = [] -> forallb is_space s = true.
Proof.
  induction s as [|c r IH]; [reflexivity|].
  rewrite rstrip_cons. destruct (rstrip r) eqn:E; [|discriminate].
  destruct (is_space c) eqn:Ec; [|discriminate].
  intros _. cbn. rewrite Ec. auto.
Qed.

Lemma words_rstrip (s : str) : words (rstrip s) = words s.
Proof.
  induction s as [|c r IH]; [reflexivity|].
  rewrite rstrip_cons. destruct (rstrip r) as [|x l] eqn:E.
  - pose proof (words_all_space _ (rstrip_empty_all_space _ E)) as Hr.
    destruct (is_space c) eqn:Ec; cbn [words]; rewrite Ec.
    + now rewrite Hr.
    + destruct r as [|d r']; [reflexivity|].
      pose proof (rstrip_empty_all_space _ E) as Hs. cbn in Hs.
      apply andb_true_iff in Hs as [Hd _]. rewrite Hd, Hr. reflexivity.
  - cbn [words]. destruct (is_space c); [exact IH|].
    destruct r as [|d r']; [discriminate|].
    rewrite rstrip_cons in E. rewrite <- IH.
    destruct (rstrip r') as [|y l'] eqn:E'.
    + destruct (is_space d) eqn:Ed; [discriminate|].
      injection E as <- <-. rewrite Ed. cbn [words]. rewrite Ed. reflexivity.
    + injection E as <- <-. reflexivity.
Qed.

Lemma words_lstrip (s : str) : words (lstrip s) = words s.
Proof.
  induction s as [|c r IH]; [reflexivity|].
  unfold lstrip in *. cbn [drop_while].
  destruct (is_space c) eqn:E; [|reflexivity].
  rewrite IH. cbn [words]. now rewrite E.
Qed.

Lemma words_strip (s : str) : words (strip s) = words s.
Proof. unfold strip. now rewrite words_rstrip, words_lstrip. Qed.

Lemma words_nonempty (t : str) :
  no_trail t = true -> t <> [] -> words t <> [].
Proof.
  induction t as [|c r IH]; [congruence|].
  intros Ht _. cbn [words]. cbn [no_trail] in Ht.
  destruct r as [|d r'].
  - apply negb_true_iff in Ht. rewrite Ht. discriminate.
  - destruct (is_space c); [apply IH; [exact Ht | discriminate]|].
    destruct (is_space d); [discriminate|].
    destruct (words (d :: r')); discriminate.
Qed.

Lemma unwords_cons (w : str) (ws : list str) :
  ws <> [] -> unwords (w :: ws) = w ++ SP :: unwords ws.
Proof. destruct ws; [congruence | reflexivity]. Qed.

Lemma squeeze_words (t : str) :
  no_trail t = true ->
  squeeze true t = unwords (words t)
  /\ squeeze false t
     = match t with
       | [] => []
       | c :: _ => if is_space c then SP :: unwords (words t)
                   else unwords (words t)
       end.
Proof.
  induction t as [|c r IH]; [split; reflexivity|].
  intros Ht. cbn [no_trail] in Ht. cbn [squeeze words].
  destruct r as [|d r'].
  - apply negb_true_iff in Ht. rewrite Ht. split; reflexivity.
  - destruct (IH Ht) as [IH1 IH0].
    destruct (is_space c) eqn:Ec.
    + rewrite IH1. split; reflexivity.
    + rewrite IH0.
      destruct (is_space d) eqn:Ed.
      * rewrite unwords_cons
          by (apply words_nonempty; [exact Ht | discriminate]).
        split; reflexivity.
      * assert (Hne : words (d :: r') <> [])
          by (apply words_nonempty; [exact Ht | discriminate]).
        destruct (words (d :: r')) as [|w ws]; [congruence|].
        destruct ws; split; reflexivity.
Qed.

Lemma lstrip_head (s : str) :
  match lstrip s with [] => True | c :: _ => is_space c = false end.
Proof.
  induction s as [|c r IH]; cbn; [exact I|].
  destruct (is_space c) eqn:E; [exact IH | exact E].
Qed.

Lemma rstrip_head (c : char) (r : str) :
  is_space c = false -> exists r', rstrip (c :: r) = c :: r'.
Proof.
  intros Hc. rewrite rstrip_cons, Hc.
  destruct (rstrip r); eauto.
Qed.

Lemma strip_head (s : str) :
  match strip s with [] => True | c :: _ => is_space c = false end.
Proof.
  unfold strip. pose proof (lstrip_head s) as H.
  destruct (lstrip s) as [|c r]; [exact I|].
  destruct (rstrip_head c r H) as [r' ->]. exact H.
Qed.

(** [_clean_text] writes the words of its argument with single spaces. *)
Lemma clean_text_unwords (s : str) :
  _clean_text s = unwords (words s).
Proof.
  unfold _clean_text. rewrite re_sub_ws_plus.
  destruct (squeeze_words (strip s) (no_trail_rstrip _)) as [_ H].
  rewrite H, words_strip. pose proof (strip_head s) as Hh.
  destruct (strip s) as [|c r] eqn:E.
  - rewrite <- (words_strip s), E. reflexivity.
  - now rewrite Hh.
Qed.

Lemma is_word_cons (c : char) (w : str) :
  is_space c = false -> forallb (fun x => negb (is_space x)) w = true ->
  is_word (c :: w) = true.
Proof. intros Hc Hw. unfold is_word. cbn. now rewrite Hc, Hw. Qed.

Lemma words_are_words (s : str) : forallb is_word (words s) = true.
Proof.
  induction s as [|c r IH]; [reflexivity|].
  cbn [words]. destruct (is_space c) eqn:Ec; [exact IH|].
  destruct r as [|d r'].
  - cbn. now rewrite Ec.
  - destruct (is_space d) eqn:Ed.
    + cbn [forallb]. rewrite IH. cbn. now rewrite Ec.
    + destruct (words (d :: r')) as [|w ws].
      * cbn. now rewrite Ec.
      * cbn [forallb] in *. apply andb_true_iff in IH as [Hw Hws].
        rewrite Hws, andb_true_r. unfold is_word in *.
        apply andb_true_iff in Hw as [_ Hw]. cbn. now rewrite Ec, Hw.
Qed.

Lemma words_word_sp (w rest : str) :
  is_word w = true -> words (w ++ SP :: rest) = w :: words rest.
Proof.
  unfold is_word. induction w as [|c w IH]; [discriminate|].
  cbn [truthy forallb andb]. intros H.
  apply andb_true_iff in H as [Hc Hw]. apply negb_true_iff in Hc.
  cbn [app words]. rewrite Hc. destruct w as [|d w'].
  - cbn [app]. rewrite SP_is_space. reflexivity.
  - cbn [app]. pose proof Hw as Hw'. cbn [forallb] in Hw'.
    apply andb_true_iff in Hw' as [Hd _]. apply negb_true_iff in Hd.
    rewrite Hd. cbn [app] in IH. rewrite IH by exact Hw. reflexivity.
Qed.

Lemma words_word (w : str) : is_word w = true -> words w = [w].
Proof.
  unfold is_word. induction w as [|c w IH]; [discriminate|].
  cbn [truthy forallb andb]. intros H.
  apply andb_true_iff in H as [Hc Hw]. apply negb_true_iff in Hc.
  cbn [words]. rewrite Hc. destruct w as [|d w']; [reflexivity|].
  pose proof Hw as Hw'. cbn [forallb] in Hw'.
  apply andb_true_iff in Hw' as [Hd _]. apply negb_true_iff in Hd.
  rewrite Hd, IH by exact Hw. reflexivity.
Qed.

Lemma words_unwords (ws : list str) :
  forallb is_word ws = true -> words (unwords ws) = ws.
Proof.
  induction ws as [|w ws IH]; [reflexivity|].
  cbn [forallb]. intros H. apply andb_true_iff in H as [Hw Hws].
  destruct ws as [|w' ws'].
  - cbn. now apply words_word.
  - rewrite unwords_cons by discriminate.
    rewrite words_word_sp by exact Hw. now rewrite IH.
Qed.

Lemma words_head (d : char) (r : str) :
  is_space d = false -> exists w ws, words (d :: r) = w :: ws.
Proof.
  intros Hd. cbn [words]. rewrite Hd. destruct r as [|e r']; [eauto|].
  destruct (is_space e); [eauto|].
  destruct (words (e :: r')); eauto.
Qed.

Lemma words_cons_nonspace (c d : char) (r : str) :
  is_space c = false -> is_space d = false ->
  words (c :: d :: r)
  = match words (d :: r) with
    | w :: ws => (c :: w) :: ws
    | [] => [[c]]
    end.
Proof. intros Hc Hd. cbn [words]. now rewrite Hc, Hd. Qed.

Lemma words_cons_space (c d : char) (r : str) :
  is_space c = false -> is_space d = true ->
  words (c :: d :: r) = [c] :: words (d :: r).
Proof. intros Hc Hd. cbn [words]. now rewrite Hc, Hd. Qed.

Lemma words_skip (c : char) (r : str) :
  is_space c = true -> words (c :: r) = words r.
Proof. intros Hc. cbn [words]. now rewrite Hc. Qed.

(** The words of a text and of a text after it, a space between them. *)
Lemma words_app_sp (l x : str) :
  words (l ++ SP :: x) = words l ++ words x.
Proof.
  induction l as [|c r IH]; [reflexivity|].
  destruct (is_space c) eqn:Ec.
  - cbn [app]. now rewrite !words_skip.
  - destruct r as [|d r'].
    + cbn [app]. rewrite words_cons_space by (exact Ec || reflexivity).
      rewrite words_skip by reflexivity. cbn [words]. now rewrite Ec.
    + cbn [app] in *. destruct (is_space d) eqn:Ed.
      * rewrite !words_cons_space by assumption. now rewrite IH.
      * rewrite !words_cons_nonspace by assumption. rewrite IH.
        destruct (words_head d r' Ed) as (w & ws & ->). reflexivity.
Qed.

Lemma words_join (ls : list str) :
  words (join [SP] ls) = flat_map words ls.
Proof.
  induction ls as [|l ls IH]; [reflexivity|].
  destruct ls as [|l' ls'].
  - cbn. now rewrite app_nil_r.
  - change (join [SP] (l :: l' :: ls')) with (l ++ SP :: join [SP] (l' :: ls')).
    rewrite words_app_sp, IH. reflexivity.
Qed.

Lemma single_spaced_word (w t : str) (b : bool) :
  is_word w = true -> single_spaced b (w ++ t) = single_spaced false t.
Proof.
  unfold is_word. revert b. induction w as [|c w IH]; [discriminate|].
  intros b H. cbn [truthy forallb andb] in H.
  apply andb_true_iff in H as [Hc Hw]. apply negb_true_iff in Hc.
  cbn [app single_spaced]. rewrite Hc.
  destruct w as [|d w']; [reflexivity|].
  apply IH. cbn [truthy andb]. exact Hw.
Qed.

Lemma normalized_unwords (ws : list str) :
  forallb is_word ws = true -> normalized (unwords ws) = true.
Proof.
  intros H. assert (G : ws <> [] -> single_spaced true (unwords ws) = true).
  { induction ws as [|w ws IH]; [congruence|]. intros _.
    cbn [forallb] in H. apply andb_true_iff in H as [Hw Hws].
    destruct ws as [|w' ws'].
    - cbn [unwords join]. rewrite <- (app_nil_r w).
      now rewrite single_spaced_word.
    - rewrite unwords_cons by discriminate.
      rewrite single_spaced_word by exact Hw.
      cbn [single_spaced]. rewrite SP_is_space. cbn.
      apply IH; [exact Hws | discriminate]. }
  destruct ws as [|w ws]; [reflexivity|].
  specialize (G ltac:(discriminate)).
  unfold normalized. destruct (unwords (w :: ws)); [reflexivity | exact G].
Qed.

Lemma filter_word (w : str) : is_word w = true -> filter not_space w = w.
Proof.
  unfold is_word. intros H. apply andb_true_iff in H as [_ H].
  induction w as [|c w IH]; [reflexivity|].
  cbn [forallb] in H. apply andb_true_iff in H as [Hc Hw].
  cbn [filter]. unfold not_space at 1. rewrite Hc. now rewrite IH.
Qed.

Lemma filter_unwords (ws : list str) :
  forallb is_word ws = true -> filter not_space (unwords ws) = concat ws.
Proof.
  induction ws as [|w ws IH]; [reflexivity|].
  cbn [forallb]. intros H. apply andb_true_iff in H as [Hw Hws].
  destruct ws as [|w' ws'].
  - cbn. rewrite app_nil_r. now apply filter_word.
  - rewrite unwords_cons by discriminate.
    rewrite filter_app, filter_word by exact Hw.
    cbn [filter]. unfold not_space at 1. rewrite SP_is_space. cbn [negb].
    now rewrite IH.
Qed.

Lemma concat_words (s : str) : concat (words s) = filter not_space s.
Proof.
  induction s as [|c r IH]; [reflexivity|].
  cbn [filter]. unfold not_space at 1.
  destruct (is_space c) eqn:Ec; cbn [negb].
  - now rewrite words_skip.
  - destruct r as [|d r']; [cbn; now rewrite Ec|].
    destruct (is_space d) eqn:Ed.
    + rewrite words_cons_space by assumption. cbn [concat app]. now rewrite IH.
    + rewrite words_cons_nonspace by assumption. rewrite <- IH.
      destruct (words_head d r' Ed) as (w & ws & ->). reflexivity.
Qed.

(** ** The claims on [_clean_text] *)

(** C7.  [_clean_text] collapses every run of whitespace (newlines and
    tabs included) into one space and trims both ends: its result is the
    words of the argument, in order, with a single space between two; it
    neither starts nor ends with whitespace and holds no whitespace but
    single spaces; the characters that are not whitespace are kept as
    they are.  For ["a\n\n  b\t\tc  "] it returns ["a b c"]. *)
Theorem clean_text_collapses_whitespace :
  (forall s, _clean_text s = unwords (words s))
  /\ (forall s, normalized (_clean_text s) = true)
  /\ (forall s, filter not_space (_clean_text s) = filter not_space s)
  /\ _clean_text (lit "a\n\n  b\t\tc  ") = lit "a b c".
Proof.
  split; [exact clean_text_unwords|].
  split; [|split; [|reflexivity]]; intros s; rewrite clean_text_unwords.
  - apply normalized_unwords, words_are_words.
  - rewrite filter_unwords by apply words_are_words. apply concat_words.
Qed.

(** C8.  [_clean_text] is idempotent. *)
Theorem clean_text_idempotent (x : str) :
  _clean_text (_clean_text x) = _clean_text x.
Proof.
  rewrite !clean_text_unwords.
  now rewrite words_unwords by apply words_are_words.
Qed.

(** ** The loop of [_parse_vtt_to_text] *)

Lemma cue_line_app (U : UnicodeData) (acc : list str) (line : str) :
  cue_line U acc line = acc ++ cue U line.
Proof.
  unfold cue, cue_line.
  destruct (negb (truthy (strip line))); [now rewrite app_nil_r|].
  destruct (contains (lit "-->") (strip line)); [now rewrite app_nil_r|].
  destruct (fullmatch_digits U (strip line)); [now rewrite app_nil_r|].
  destruct (truthy (re_sub tag_re [] (strip line)));
    [reflexivity | now rewrite app_nil_r].
Qed.

Lemma fold_cue_line (U : UnicodeData) (ls : list str) (acc : list str) :
  fold_left (cue_line U) ls acc = acc ++ flat_map (cue U) ls.
Proof.
  revert acc. induction ls as [|l ls IH]; intros acc; cbn [fold_left flat_map].
  - now rewrite app_nil_r.
  - rewrite IH, cue_line_app, app_assoc. reflexivity.
Qed.

Lemma re_sub_nil (m : matcher) (repl : str) : re_sub m repl [] = [].
Proof. reflexivity. Qed.

Lemma words_cue (U : UnicodeData) (line : str) :
  flat_map words (cue U line)
  = if kept U (strip line) then words (re_sub tag_re [] (strip line)) else [].
Proof.
  unfold cue, cue_line, kept.
  destruct (strip line) as [|c r] eqn:E; [reflexivity|].
  cbn [truthy negb].
  destruct (contains (lit "-->") (c :: r)); [reflexivity|].
  destruct (fullmatch_digits U (c :: r)); [reflexivity|].
  cbn [negb andb].
  destruct (re_sub tag_re [] (c :: r)); cbn; [reflexivity|].
  now rewrite app_nil_r.
Qed.

Lemma flat_map_words_cues (U : UnicodeData) (ls : list str) :
  flat_map words (flat_map (cue U) ls)
  = flat_map (fun l => words (re_sub tag_re [] l))
             (filter (kept U) (map strip ls)).
Proof.
  induction ls as [|l ls IH]; [reflexivity|].
  cbn [flat_map map filter]. rewrite flat_map_app, IH, words_cue.
  destruct (kept U (strip l)); reflexivity.
Qed.

(** The result of the parser is the words of the kept lines, tags taken
    out, in the order of the lines and with single spaces. *)
Lemma parse_vtt_words (U : UnicodeData) (vtt : str) :
  _parse_vtt_to_text U vtt
  = unwords (flat_map (fun l => words (re_sub tag_re [] l))
                      (filter (kept U) (map strip (split_lines (body vtt))))).
Proof.
  unfold _parse_vtt_to_text. fold (body vtt).
  rewrite clean_text_unwords, fold_cue_line. cbn [app].
  now rewrite words_join, flat_map_words_cues.
Qed.

Lemma fullmatch_digits_ascii (U : UnicodeData) (l : str) :
  forallb is_ascii l = true ->
  fullmatch_digits U l = fullmatch_digits ascii_data l.
Proof.
  unfold fullmatch_digits. intros H. f_equal.
  induction l as [|c l IH]; [reflexivity|].
  cbn [forallb] in *. apply andb_true_iff in H as [Hc Hl].
  rewrite IH by exact Hl. f_equal. now apply isdecimal_ascii.
Qed.

(** On a document in ASCII the interpreter's table is not looked at
    beyond the ASCII digits. *)
Lemma parse_vtt_ascii (U : UnicodeData) (vtt : str) :
  forallb (forallb is_ascii) (map strip (split_lines (body vtt))) = true ->
  _parse_vtt_to_text U vtt = _parse_vtt_to_text ascii_data vtt.
Proof.
  intros H. rewrite !parse_vtt_words. do 2 f_equal.
  induction (map strip (split_lines (body vtt))) as [|l ls IH];
    [reflexivity|].
  cbn [forallb] in H. apply andb_true_iff in H as [Hl Hls].
  cbn [filter]. rewrite (IH Hls).
  replace (kept U l) with (kept ascii_data l); [reflexivity|].
  unfold kept. now rewrite (fullmatch_digits_ascii U l Hl).
Qed.

(** ** Substitution: skipping a match, copying the rest *)

Lemma re_sub_from_skip (m : matcher) (repl : str) (a t : str)
      (prev : option char) :
  re_sub_from m repl (length a) prev (a ++ t)
  = re_sub_from m repl 0 (fold_left (fun _ c => Some c) a prev) t.
Proof.
  revert prev. induction a as [|c a IH]; intros prev; [reflexivity|].
  cbn [length app re_sub_from fold_left]. apply IH.
Qed.

Lemma header_re_copies (p : char) (t : str) :
  re_sub_from header_re [] 0 (Some p) t = t.
Proof.
  revert p. induction t as [|c r IH]; intros p; [reflexivity|].
  cbn [re_sub_from header_re]. now rewrite IH.
Qed.

Lemma starts_with_app (kw t : str) : starts_with kw (kw ++ t) = true.
Proof.
  induction kw as [|c kw IH]; [reflexivity|].
  cbn [app starts_with]. now rewrite N.eqb_refl, IH.
Qed.

Lemma skipn_length_app (a t : str) : skipn (length a) (a ++ t) = t.
Proof. induction a as [|c a IH]; [reflexivity | exact IH]. Qed.

Lemma lazy_blank_first (h rest : str) :
  contains [LF; LF] (h ++ [LF]) = false ->
  lazy_blank (h ++ LF :: LF :: rest) = Some (length h + 2).
Proof.
  induction h as [|c h IH]; [reflexivity|].
  intros H. cbn [app contains] in H. apply orb_false_iff in H as [Hc Hh].
  cbn [app lazy_blank length].
  destruct h as [|d h'].
  - cbn [app] in *. cbn [starts_with] in Hc.
    rewrite N.eqb_sym in Hc. rewrite (N.eqb_refl LF) in Hc.
    cbn [andb] in Hc. rewrite andb_true_r in Hc. rewrite Hc.
    reflexivity.
  - cbn [app] in *. cbn [starts_with] in Hc.
    rewrite andb_true_r in Hc.
    rewrite (N.eqb_sym LF c), (N.eqb_sym LF d) in Hc. rewrite Hc.
    rewrite IH by exact Hh. reflexivity.
Qed.


Lemma re_sub_header_none (t : str) :
  starts_with (lit "WEBVTT") t = false -> re_sub header_re [] t = t.
Proof.
  intros H. unfold re_sub. destruct t as [|c r]; [reflexivity|].
  cbn [re_sub_from]. unfold header_re at 1, keyword_block. rewrite H.
  now rewrite header_re_copies.
Qed.

Lemma replace_crlf_app (a t : str) :
  ~ In CR a -> replace_crlf (a ++ t) = a ++ replace_crlf t.
Proof.
  induction a as [|c a IH]; [reflexivity|].
  intros H. cbn [In] in H.
  assert (Hc : N.eqb c CR = false)
    by (apply N.eqb_neq; intros ->; apply H; now left).
  cbn [app replace_crlf]. rewrite Hc. cbn [andb].
  rewrite <- IH by tauto.
  destruct (a ++ t) eqn:E; [|reflexivity].
  apply app_eq_nil in E as [-> ->]. reflexivity.
Qed.

Lemma starts_with_replace_crlf (kw t : str) :
  ~ In CR kw -> ~ In LF kw ->
  starts_with kw (replace_crlf t) = starts_with kw t.
Proof.
  revert t. induction kw as [|a kw IH]; [reflexivity|].
  intros t Hcr Hlf. cbn [In] in *.
  destruct t as [|c r]; [reflexivity|].
  cbn [replace_crlf]. destruct r as [|d r']; [reflexivity|].
  destruct (N.eqb c CR && N.eqb d LF) eqn:E.
  - apply andb_true_iff in E as [Ec Ed]. apply N.eqb_eq in Ec as ->.
    cbn [starts_with].
    replace (N.eqb a LF) with false
      by (symmetry; apply N.eqb_neq; intros ->; tauto).
    replace (N.eqb a CR) with false
      by (symmetry; apply N.eqb_neq; intros ->; tauto).
    reflexivity.
  - cbn [starts_with]. f_equal. apply IH; tauto.
Qed.

(** ** Tags *)

Lemma re_sub_from_tag_prev (k : nat) (p q : option char) (t : str) :
  re_sub_from tag_re [] k p t = re_sub_from tag_re [] k q t.
Proof. destruct t, k; reflexivity. Qed.

Lemma tag_re_not_lt (p : option char) (c : char) (t : str) :
  c <> LT -> tag_re p (c :: t) = None.
Proof.
  intros H. unfold tag_re. apply N.eqb_neq in H. now rewrite H.
Qed.

Lemma re_sub_tag_copy (a t : str) (p : option char) :
  ~ In LT a ->
  re_sub_from tag_re [] 0 p (a ++ t) = a ++ re_sub_from tag_re [] 0 p t.
Proof.
  revert p. induction a as [|c a IH]; intros p H; [reflexivity|].
  cbn [In] in H. cbn [app re_sub_from].
  rewrite tag_re_not_lt by (intros ->; tauto).
  f_equal. rewrite IH by tauto. f_equal. apply re_sub_from_tag_prev.
Qed.


Lemma forallb_not_in (x : char) (a : str) :
  ~ In x a -> forallb (fun c => negb (N.eqb c x)) a = true.
Proof.
  induction a as [|c a IH]; [reflexivity|].
  intros H. cbn [In] in H. cbn [forallb].
  rewrite IH by tauto.
  replace (N.eqb c x) with false
    by (symmetry; apply N.eqb_neq; intros ->; tauto).
  reflexivity.
Qed.


(** ** The claims on [_parse_vtt_to_text] *)




(** C9.  A NOTE block is taken out when a blank line ends it; one that
    ends with the document stays, and its text is in the result. *)
Theorem parse_vtt_note_blocks (U : UnicodeData) :
  _parse_vtt_to_text U
    (lit "WEBVTT\n\n00:00:01.000 --> 00:00:02.000\nHello\n\nNOTE a remark\n\n00:00:02.000 --> 00:00:03.000\nBye\n")
  = lit "Hello Bye"
  /\ _parse_vtt_to_text U
       (lit "WEBVTT\n\n00:00:01.000 --> 00:00:02.000\nHello\n\nNOTE end of file\n")
     = lit "Hello NOTE end of file".
Proof.
  split; rewrite parse_vtt_ascii by (vm_compute; reflexivity);
    vm_compute; reflexivity.
Qed.

(** ** The steps of the handler *)

Lemma download_subtitles_run (W : World) (url workdir lang : str) (st : State) :
  _download_subtitles W url workdir lang st
  = (Val (pick_vtt lang (candidates workdir (subs_dir W url workdir lang (files st)))),
     {| files := subs_dir W url workdir lang (files st);
        tmp_live := tmp_live st;
        calls := calls st ++ [manual_call url workdir lang;
                              auto_call url workdir lang] |}).
Proof.
  unfold _download_subtitles, subs_dir, candidates, manual_call, auto_call,
    subs_template.
  unfold bind, try_pass, _run, glob, ret.
  destruct (yt_dlp W _ 90 (files st)) as [d1 f1].
  cbn [files calls tmp_live fst].
  destruct f1; cbn [files calls tmp_live];
    destruct (yt_dlp W _ 90 d1) as [d2 f2];
    destruct f2; cbn [files calls tmp_live fst];
    rewrite <- app_assoc; cbn [app];
    destruct (glob_star workdir (lit "subs.") (lit ".vtt") d2) eqn:G1;
    cbn [negb files]; try reflexivity;
    destruct (glob_star workdir [] (lit ".vtt") d2) eqn:G2; reflexivity.
Qed.

Lemma download_audio_run (W : World) (url workdir : str) (st : State) :
  _download_audio W url workdir st
  = let run := yt_dlp W (audio_cmd (path_join workdir (lit "audio.%(ext)s")) url)
                      180 (files st) in
    let st' := with_call st (fst run) (audio_call url workdir) in
    match snd run with
    | Some e => (Exc e, st')
    | None =>
        match glob_star workdir (lit "audio.") [] (fst run) with
        | [] => (Exc (RuntimeError (lit "Audio download produced no file")), st')
        | first :: _ => (Val first, st')
        end
    end.
Proof.
  unfold _download_audio, audio_call, with_call.
  unfold bind, _run, glob, ret, raise. cbv zeta.
  destruct (yt_dlp W _ 180 (files st)) as [d f].
  cbn [fst snd]. destruct f; [reflexivity|].
  cbn [files]. destruct (glob_star workdir (lit "audio.") [] d); reflexivity.
Qed.

Lemma fold_parts (segments acc : list str) :
  fold_left (fun parts seg => if truthy seg then parts ++ [seg] else parts)
            segments acc
  = acc ++ filter truthy segments.
Proof.
  revert acc. induction segments as [|x l IH]; intros acc; cbn [fold_left filter].
  - now rewrite app_nil_r.
  - rewrite IH. destruct (truthy x); [|reflexivity].
    now rewrite <- app_assoc.
Qed.

Lemma transcribe_run (W : World) (audio_path : str) (st : State) :
  _transcribe_with_faster_whisper W audio_path st
  = let model_name := environ_get W (lit "WHISPER_MODEL") (lit "small") in
    let device := environ_get W (lit "WHISPER_DEVICE") (lit "cuda") in
    let compute_type := environ_get W (lit "WHISPER_COMPUTE_TYPE") (lit "float16") in
    let st' := with_call st (files st)
                 (CallWhisper model_name device compute_type audio_path) in
    match whisper W model_name device compute_type audio_path (files st) with
    | inl e => (Exc e, st')
    | inr segments => (Val (asr_text segments), st')
    end.
Proof.
  unfold _transcribe_with_faster_whisper, transcribe, with_call, asr_text.
  unfold bind, ret. cbv zeta.
  destruct (whisper W _ _ _ audio_path (files st)); [reflexivity|].
  now rewrite fold_parts.
Qed.

Lemma asr_fallback_run (W : World) (url workdir lang : str) (st : State) :
  asr_fallback W url workdir lang st
  = let run := yt_dlp W (audio_cmd (path_join workdir (lit "audio.%(ext)s")) url)
                      180 (files st) in
    let st1 := with_call st (fst run) (audio_call url workdir) in
    match snd run with
    | Some e => (Exc e, st1)
    | None =>
        match glob_star workdir (lit "audio.") [] (fst run) with
        | [] => (Exc (RuntimeError (lit "Audio download produced no file")), st1)
        | audio_path :: _ =>
            let st2 := with_call st1 (fst run) (asr_call W audio_path) in
            match whisper W (environ_get W (lit "WHISPER_MODEL") (lit "small"))
                          (environ_get W (lit "WHISPER_DEVICE") (lit "cuda"))
                          (environ_get W (lit "WHISPER_COMPUTE_TYPE") (lit "float16"))
                          audio_path (fst run) with
            | inl e => (Exc e, st2)
            | inr segments =>
                match asr_text segments with
                | [] => (Val (error_dict (lit "ASR returned empty transcript")), st2)
                | text => (Val (transcript_dict text (lit "asr") lang), st2)
                end
            end
        end
    end.
Proof.
  unfold asr_fallback. unfold bind at 1. rewrite download_audio_run.
  cbv zeta. destruct (snd (yt_dlp W _ 180 (files st))); [reflexivity|].
  destruct (glob_star workdir (lit "audio.") [] _) as [|p ps]; [reflexivity|].
  unfold bind. rewrite transcribe_run. cbv zeta. unfold asr_call.
  cbn [files with_call].
  destruct (whisper W _ _ _ p _); [reflexivity|].
  unfold ret. destruct (asr_text l); reflexivity.
Qed.

Lemma pick_vtt_in (lang : str) (vtts : list str) (p : str) :
  pick_vtt lang vtts = Some p -> In p vtts.
Proof.
  unfold pick_vtt. destruct (find _ vtts) eqn:F.
  - intros [= <-]. now apply find_some in F.
  - destruct vtts; [discriminate|]. intros [= <-]. now left.
Qed.

Lemma path_join_truthy (a b : str) : truthy b = true -> truthy (path_join a b) = true.
Proof.
  destruct b as [|c b]; [discriminate|]. intros _. unfold path_join.
  destruct (starts_with [SLASH] (c :: b)); [reflexivity|].
  destruct (negb (truthy a) || ends_with [SLASH] a);
    destruct a; reflexivity.
Qed.

Lemma glob_star_in (workdir pre suf : str) (d : Dir) (p : str) :
  In p (glob_star workdir pre suf d) ->
  exists e, In e d /\ p = path_join workdir (fst e)
            /\ fnmatch_star pre suf (fst e) = true.
Proof.
  unfold glob_star. rewrite in_map_iff. intros (name & <- & H).
  apply filter_In in H as [H M]. apply in_map_iff in H as (e & <- & He).
  apply andb_true_iff in M as [_ M]. eauto.
Qed.

Lemma candidates_in (workdir : str) (d : Dir) (p : str) :
  In p (candidates workdir d) ->
  exists e, In e d /\ p = path_join workdir (fst e)
            /\ ends_with (lit ".vtt") (fst e) = true.
Proof.
  unfold candidates. intros H.
  assert (G : exists pre, In p (glob_star workdir pre (lit ".vtt") d)).
  { destruct (glob_star workdir (lit "subs.") (lit ".vtt") d) eqn:E.
    - now exists [].
    - exists (lit "subs."). now rewrite E. }
  destruct G as (pre & G). apply glob_star_in in G as (e & He & -> & M).
  exists e. repeat split; [exact He|].
  unfold fnmatch_star in M. apply andb_true_iff in M as [M _].
  now apply andb_true_iff in M as [_ M].
Qed.

Lemma str_eqb_refl (a : str) : str_eqb a a = true.
Proof.
  induction a as [|c a IH]; [reflexivity|].
  cbn [str_eqb]. now rewrite N.eqb_refl, IH.
Qed.

Lemma candidate_readable (workdir : str) (d : Dir) (p : str) :
  In p (candidates workdir d) ->
  truthy p = true /\ exists raw, file_text workdir d p = Some raw.
Proof.
  intros H. apply candidates_in in H as (e & He & -> & M). split.
  - apply path_join_truthy. destruct (fst e); [discriminate | reflexivity].
  - unfold file_text.
    destruct (find (fun e0 => str_eqb (path_join workdir (fst e0))
                                      (path_join workdir (fst e))) d) eqn:F.
    + cbn [option_map]. eauto.
    + apply (find_none _ _ F) in He. cbv beta in He.
      now rewrite str_eqb_refl in He.
Qed.

Lemma read_text_run (workdir path : str) (st : State) :
  read_text workdir path st
  = match file_text workdir (files st) path with
    | Some raw => (Val raw, st)
    | None => (Exc (OtherError (lit "FileNotFoundError")), st)
    end.
Proof.
  unfold read_text, file_text. destruct (find _ (files st)); reflexivity.
Qed.

Lemma strip_en : strip (lit "en") = lit "en".
Proof. reflexivity. Qed.

Lemma handler_url (event : option Event) :
  strip (or_else (youtubeUrl (request_input event)) []) = request_url event.
Proof.
  unfold request_url. destruct (youtubeUrl (request_input event)) as [u|];
    [|reflexivity].
  destruct u; reflexivity.
Qed.

Lemma handler_lang (event : option Event) :
  (let l := strip (or_else (lang_hint (request_input event)) (lit "en")) in
   if truthy l then l else lit "en")
  = request_lang event.
Proof.
  unfold request_lang. cbv zeta.
  destruct (lang_hint (request_input event)) as [h|]; [|reflexivity].
  destruct h as [|c h]; [reflexivity|].
  cbn [or_else truthy]. destruct (strip (c :: h)); reflexivity.
Qed.

Lemma fallback_outcome (W : World) (event : option Event) :
  (let (r, st') :=
     asr_fallback W (request_url event) (tmpdir W) (request_lang event)
       {| files := caption_dir W event; tmp_live := true;
          calls := [manual_call (request_url event) (tmpdir W) (request_lang event);
                    auto_call (request_url event) (tmpdir W) (request_lang event)] |} in
   (r, {| files := []; tmp_live := false; calls := calls st' |}))
  = outcome_fallback W event.
Proof.
  rewrite asr_fallback_run. cbv zeta. cbn [files].
  unfold outcome_fallback, audio_files, asr_run, audio_run. cbv zeta.
  destruct (snd (yt_dlp W _ 180 (caption_dir W event))); [reflexivity|].
  destruct (glob_star (tmpdir W) (lit "audio.") [] _) as [|p ps]; [reflexivity|].
  destruct (whisper W _ _ _ p _); [reflexivity|].
  destruct (asr_text l); reflexivity.
Qed.

Lemma handler_outcome (U : UnicodeData) (W : World) (event : option Event) :
  run_handler U W event = outcome U W event.
Proof.
  unfold run_handler, handler, outcome. cbv zeta.
  change (match event with
          | Some ev => match input ev with
                       | Some i => i
                       | None => {| youtubeUrl := None; lang_hint := None |}
                       end
          | None => {| youtubeUrl := None; lang_hint := None |}
          end) with (request_input event).
  rewrite handler_url.
  pose proof (handler_lang event) as HL. cbv zeta in HL. rewrite HL. clear HL.
  destruct (truthy (request_url event)) eqn:Eu; cbn [negb]; [|reflexivity].
  unfold with_tempdir, initial. cbn [calls].
  unfold bind at 1. rewrite download_subtitles_run. cbn [files calls tmp_live app].
  pose proof (fallback_outcome W event) as FB.
  unfold caption_text, caption_asset. fold (caption_dir W event).
  destruct (pick_vtt (request_lang event) (candidates (tmpdir W) (caption_dir W event)))
    as [path|] eqn:P; [|exact FB].
  apply pick_vtt_in, candidate_readable in P as [Tp [raw R]].
  rewrite Tp, R. cbn [option_map].
  unfold bind at 1. rewrite read_text_run. cbn [files]. rewrite R.
  destruct (_parse_vtt_to_text U raw) as [|c text]; [exact FB | reflexivity].
Qed.


(** ** The request *)

Lemma drop_while_all (p : char -> bool) (s : str) :
  drop_while p s = [] -> forallb p s = true.
Proof.
  induction s as [|c r IH]; [reflexivity|].
  cbn [drop_while forallb]. destruct (p c); [exact IH | discriminate].
Qed.

Lemma drop_while_of_all (p : char -> bool) (s : str) :
  forallb p s = true -> drop_while p s = [].
Proof.
  induction s as [|c r IH]; [reflexivity|].
  cbn [drop_while forallb]. destruct (p c); [exact IH | discriminate].
Qed.

Lemma strip_empty_iff (s : str) : strip s = [] <-> forallb is_space s = true.
Proof.
  unfold strip, lstrip. split.
  - intros H. apply rstrip_empty_all_space in H.
    apply drop_while_all. destruct (drop_while is_space s) as [|c r] eqn:E;
      [reflexivity|].
    exfalso. pose proof (lstrip_head s) as L. unfold lstrip in L.
    rewrite E in L. cbn [forallb] in H. rewrite L in H. discriminate.
  - intros H. now rewrite drop_while_of_all.
Qed.

(** The URL of a request is empty exactly when the key is missing (or
    holds nothing) or its value is blank. *)
Lemma request_url_empty (event : option Event) :
  request_url event = []
  <-> match youtubeUrl (request_input event) with
      | None => True
      | Some u => forallb is_space u = true
      end.
Proof.
  unfold request_url. destruct (youtubeUrl (request_input event)) as [u|].
  - apply strip_empty_iff.
  - tauto.
Qed.

Lemma truthy_false (s : str) : truthy s = false <-> s = [].
Proof. destruct s; cbn; split; intros; congruence. Qed.

(** ** The claims on [handler] *)

(** C6.  When the source URL is missing or blank the handler returns at
    once the error record for a missing source URL (the message of the
    code is ["Missing input.youtubeUrl"]); no temporary directory is made
    and no collaborator is called. *)
Theorem handler_missing_url (U : UnicodeData) (W : World) (event : option Event) :
  match youtubeUrl (request_input event) with
  | None => True
  | Some u => forallb is_space u = true
  end ->
  run_handler U W event
  = (Val (error_dict (lit "Missing input.youtubeUrl")), initial)
  /\ calls (snd (run_handler U W event)) = [].
Proof.
  intros H. apply request_url_empty in H.
  rewrite handler_outcome. unfold outcome. rewrite H. split; reflexivity.
Qed.

Lemma handler_missing_url_witness :
  run_handler ascii_data world_audio_fails
    (Some {| input := Some {| youtubeUrl := None; lang_hint := None |} |})
  = (Val (error_dict (lit "Missing input.youtubeUrl")), initial)
  /\ run_handler ascii_data world_audio_fails (request (lit "  \t ") None)
     = (Val (error_dict (lit "Missing input.youtubeUrl")), initial).
Proof.
  split.
  - apply (handler_missing_url ascii_data world_audio_fails
             (Some {| input := Some {| youtubeUrl := None; lang_hint := None |} |})).
    exact I.
  - apply (handler_missing_url ascii_data world_audio_fails
             (request (lit "  \t ") None)).
    reflexivity.
Defined.

Lemma transcript_dict_lang (text method lang : str) :
  dict_get (lit "lang") (transcript_dict text method lang) = Some lang.
Proof. reflexivity. Qed.

Lemma transcript_dict_method (text method lang : str) :
  dict_get (lit "method") (transcript_dict text method lang) = Some method.
Proof. reflexivity. Qed.

Lemma transcript_dict_kind (text method lang : str) :
  is_transcript (transcript_dict text method lang) = true
  /\ is_error (transcript_dict text method lang) = false.
Proof. split; reflexivity. Qed.

Lemma error_dict_kind (msg : str) :
  is_transcript (error_dict msg) = false /\ is_error (error_dict msg) = true.
Proof. split; reflexivity. Qed.

(** Every returned record is a transcript record with the language of the
    request and one of the two methods, or an error record. *)
Lemma outcome_returned (U : UnicodeData) (W : World) (event : option Event)
      (d : Dict) (st : State) :
  outcome U W event = (Val d, st) ->
  (exists text method,
      d = transcript_dict text method (request_lang event)
      /\ text <> []
      /\ (method = lit "subtitles" \/ method = lit "asr"))
  \/ (exists msg, d = error_dict msg).
Proof.
  unfold outcome. cbv zeta.
  destruct (negb (truthy (request_url event))).
  { intros [= <- <-]. right. eauto. }
  assert (FB : outcome_fallback W event = (Val d, st) ->
    (exists text method,
        d = transcript_dict text method (request_lang event)
        /\ text <> []
        /\ (method = lit "subtitles" \/ method = lit "asr"))
    \/ (exists msg, d = error_dict msg)).
  { unfold outcome_fallback. cbv zeta.
    destruct (snd (audio_run W event)); [discriminate|].
    destruct (audio_files W event) as [|p ps]; [discriminate|].
    destruct (asr_run W event p) as [e|segs]; [discriminate|].
    destruct (asr_text segs) as [|c t]; intros [= <- <-].
    - right. eauto.
    - left. exists (c :: t), (lit "asr"). repeat split; [discriminate | now right]. }
  destruct (caption_text U W event) as [[|c t]|]; try exact FB.
  intros [= <- <-]. left. exists (c :: t), (lit "subtitles").
  repeat split; [discriminate | now left].
Qed.

(** C10.  In every transcript record the handler returns, whatever the
    method and whichever caption file was read, the language is that of
    the request: the hint trimmed, ["en"] when the hint is absent or
    blank. *)
Theorem handler_reports_request_lang (U : UnicodeData) (W : World)
        (event : option Event) (d : Dict) (st : State) :
  run_handler U W event = (Val d, st) ->
  is_transcript d = true ->
  dict_get (lit "lang") d = Some (request_lang event)
  /\ (dict_get (lit "method") d = Some (lit "subtitles")
      \/ dict_get (lit "method") d = Some (lit "asr")).
Proof.
  rewrite handler_outcome. intros H T.
  apply outcome_returned in H as [(text & method & -> & _ & M)|(msg & ->)].
  - rewrite transcript_dict_lang, transcript_dict_method.
    split; [reflexivity|]. destruct M as [-> | ->]; [now left | now right].
  - discriminate.
Qed.

(** The broad scan picks a French file for a request that asks for
    English, and the record says ["en"]. *)
Lemma handler_reports_request_lang_witness :
  caption_asset (world_captions [(lit "video.fr.vtt", bonjour_vtt)] [])
                (request sample_url (Some (lit " en ")))
  = Some (lit "/tmp/tmpk3v9x0qa/video.fr.vtt")
  /\ dict_get (lit "lang")
       (transcript_dict (lit "Bonjour") (lit "subtitles") (lit "en"))
     = Some (lit "en").
Proof.
  split; [reflexivity|].
  apply (handler_reports_request_lang ascii_data
           (world_captions [(lit "video.fr.vtt", bonjour_vtt)] [])
           (request sample_url (Some (lit " en ")))
           (transcript_dict (lit "Bonjour") (lit "subtitles") (lit "en"))
           (final [manual_call sample_url (lit "/tmp/tmpk3v9x0qa") (lit "en");
                   auto_call sample_url (lit "/tmp/tmpk3v9x0qa") (lit "en")])).
  - vm_compute. reflexivity.
  - reflexivity.
Defined.

Lemma outcome_unusable (U : UnicodeData) (W : World) (event : option Event) :
  request_url event <> [] -> captions_usable U W event = false ->
  outcome U W event = outcome_fallback W event.
Proof.
  intros Hu Hc. unfold outcome. cbv zeta.
  destruct (request_url event) as [|u0 us]; [congruence|]. cbn [truthy negb].
  unfold captions_usable in Hc.
  destruct (caption_text U W event) as [[|c t]|]; try reflexivity.
  discriminate.
Qed.

Lemma outcome_usable (U : UnicodeData) (W : World) (event : option Event)
      (text : str) :
  request_url event <> [] -> caption_text U W event = Some text -> text <> [] ->
  outcome U W event
  = (Val (transcript_dict text (lit "subtitles") (request_lang event)),
     final [manual_call (request_url event) (tmpdir W) (request_lang event);
            auto_call (request_url event) (tmpdir W) (request_lang event)]).
Proof.
  intros Hu Hc Ht. unfold outcome. cbv zeta.
  destruct (request_url event) as [|u0 us]; [congruence|]. cbn [truthy negb].
  rewrite Hc. destruct text; [congruence | reflexivity].
Qed.

Lemma outcome_fallback_released (W : World) (event : option Event) :
  tmp_live (snd (outcome_fallback W event)) = false
  /\ files (snd (outcome_fallback W event)) = [].
Proof.
  unfold outcome_fallback. cbv zeta.
  destruct (snd (audio_run W event)); [split; reflexivity|].
  destruct (audio_files W event) as [|p ps]; [split; reflexivity|].
  destruct (asr_run W event p) as [e|segs]; [split; reflexivity|].
  destruct (asr_text segs); split; reflexivity.
Qed.

Lemma outcome_released (U : UnicodeData) (W : World) (event : option Event) :
  tmp_live (snd (outcome U W event)) = false
  /\ files (snd (outcome U W event)) = [].
Proof.
  unfold outcome. cbv zeta.
  destruct (negb (truthy (request_url event))); [split; reflexivity|].
  destruct (caption_text U W event) as [[|c t]|];
    try apply outcome_fallback_released.
  split; reflexivity.
Qed.

(** C1, as amended.  A request ends in one of two ways.  Either the
    handler returns one record, a transcript record or an error record and
    never both: a missing or blank URL and an empty transcript of the
    speech model are reported so.  Or it raises: when no caption text was
    recovered, a failed audio run (non-zero status, time limit), an audio
    run that leaves no file, and a fault of the speech model leave the
    handler as exceptions.  Either way the temporary directory is gone. *)
Theorem handler_one_outcome (U : UnicodeData) (W : World) (event : option Event) :
  (forall d st, run_handler U W event = (Val d, st) ->
                xorb (is_transcript d) (is_error d) = true)
  /\ (request_url event = [] ->
      fst (run_handler U W event)
      = Val (error_dict (lit "Missing input.youtubeUrl")))
  /\ (request_url event <> [] -> captions_usable U W event = false ->
      (forall e, snd (audio_run W event) = Some e ->
                 fst (run_handler U W event) = Exc e)
      /\ (snd (audio_run W event) = None -> audio_files W event = [] ->
          fst (run_handler U W event)
          = Exc (RuntimeError (lit "Audio download produced no file")))
      /\ (forall audio_path rest,
             snd (audio_run W event) = None ->
             audio_files W event = audio_path :: rest ->
             (forall e, asr_run W event audio_path = inl e ->
                        fst (run_handler U W event) = Exc e)
             /\ (forall segments,
                    asr_run W event audio_path = inr segments ->
                    asr_text segments = [] ->
                    fst (run_handler U W event)
                    = Val (error_dict (lit "ASR returned empty transcript")))))
  /\ (tmp_live (snd (run_handler U W event)) = false
      /\ files (snd (run_handler U W event)) = []).
Proof.
  rewrite handler_outcome. split; [|split; [|split]].
  - intros d st H.
    apply outcome_returned in H as [(text & method & -> & _)|(msg & ->)];
      reflexivity.
  - intros H. unfold outcome. now rewrite H.
  - intros Hu Hc. rewrite (outcome_unusable U W event Hu Hc).
    unfold outcome_fallback. cbv zeta. split; [|split].
    + intros e ->. reflexivity.
    + intros -> ->. reflexivity.
    + intros p rest -> ->. split.
      * intros e ->. reflexivity.
      * intros segs -> ->. reflexivity.
  - apply outcome_released.
Qed.

Lemma handler_one_outcome_witness :
  fst (run_handler ascii_data world_audio_fails (request sample_url None))
  = Exc CalledProcessError
  /\ fst (run_handler ascii_data (world_asr [lit " "; []]) (request sample_url None))
     = Val (error_dict (lit "ASR returned empty transcript")).
Proof.
  split.
  - destruct (handler_one_outcome ascii_data world_audio_fails
                (request sample_url None)) as (_ & _ & H & _).
    destruct H as (H & _); [discriminate | reflexivity |].
    apply H. reflexivity.
  - destruct (handler_one_outcome ascii_data (world_asr [lit " "; []])
                (request sample_url None)) as (_ & _ & H & _).
    destruct H as (_ & _ & H); [discriminate | reflexivity |].
    destruct (H (lit "/tmp/tmpk3v9x0qa/audio.webm") []) as (_ & H');
      [reflexivity | reflexivity |].
    apply (H' [lit " "; []]); reflexivity.
Defined.

(** C1 as stated fails: when the audio run ends with a non-zero status
    the handler returns no record, it raises. *)
Lemma handler_raises_on_audio_failure :
  fst (run_handler ascii_data world_audio_fails (request sample_url None))
  = Exc CalledProcessError.
Proof. reflexivity. Qed.

(** C3, as amended.  When the caption tier recovers no text and the audio
    run ends well but leaves no file named [audio.*], the handler raises
    [RuntimeError("Audio download produced no file")]: the failure leaves
    the handler as an exception, no error record is returned; the speech
    model is not called. *)
Theorem handler_no_audio_file (U : UnicodeData) (W : World) (event : option Event) :
  request_url event <> [] ->
  captions_usable U W event = false ->
  snd (audio_run W event) = None ->
  audio_files W event = [] ->
  fst (run_handler U W event)
  = Exc (RuntimeError (lit "Audio download produced no file"))
  /\ asr_invoked (snd (run_handler U W event)) = false.
Proof.
  intros Hu Hc Ha Hf. rewrite handler_outcome, (outcome_unusable U W event Hu Hc).
  unfold outcome_fallback. cbv zeta. rewrite Ha, Hf. split; reflexivity.
Qed.

Lemma handler_no_audio_file_witness :
  fst (run_handler ascii_data world_no_audio_file (request sample_url None))
  = Exc (RuntimeError (lit "Audio download produced no file"))
  /\ asr_invoked (snd (run_handler ascii_data world_no_audio_file
                         (request sample_url None))) = false.
Proof.
  apply (handler_no_audio_file ascii_data world_no_audio_file
           (request sample_url None));
    [discriminate | reflexivity | reflexivity | reflexivity].
Defined.

(** C3 as stated fails: with no captions and no audio file the handler
    returns no error record; it raises, and the message starts with a
    capital. *)
Lemma handler_no_audio_file_raises :
  captions_usable ascii_data world_no_audio_file (request sample_url None) = false
  /\ audio_files world_no_audio_file (request sample_url None) = []
  /\ fst (run_handler ascii_data world_no_audio_file (request sample_url None))
     = Exc (RuntimeError (lit "Audio download produced no file"))
  /\ str_eqb (lit "Audio download produced no file")
             (lit "audio download produced no file") = false.
Proof. repeat split; reflexivity. Qed.

Lemma audio_call_not_caption (url workdir lang : str) :
  audio_call url workdir <> manual_call url workdir lang
  /\ audio_call url workdir <> auto_call url workdir lang.
Proof.
  split; intros H;
    apply (f_equal (fun c => match c with
                             | CallYtDlp _ _ t => t
                             | CallWhisper _ _ _ _ => 0
                             end)) in H;
    cbn in H; lia.
Qed.

Lemma no_asset_unusable (U : UnicodeData) (W : World) (event : option Event) :
  caption_asset W event = None -> captions_usable U W event = false.
Proof.
  intros H. unfold captions_usable, caption_text. now rewrite H.
Qed.

Lemma usable_text (U : UnicodeData) (W : World) (event : option Event) :
  captions_usable U W event = true ->
  exists text, caption_text U W event = Some text /\ text <> [].
Proof.
  unfold captions_usable. destruct (caption_text U W event) as [[|c t]|];
    try discriminate.
  intros _. exists (c :: t). split; [reflexivity | discriminate].
Qed.

(** The calls of the second tier. *)
Lemma outcome_fallback_calls (W : World) (event : option Event) :
  let url := request_url event in
  let lang := request_lang event in
  let st := snd (outcome_fallback W event) in
  (exists rest, calls st = manual_call url (tmpdir W) lang
                           :: auto_call url (tmpdir W) lang
                           :: audio_call url (tmpdir W) :: rest)
  /\ (asr_invoked st = true
      <-> snd (audio_run W event) = None /\ audio_files W event <> [])
  /\ (forall d, fst (outcome_fallback W event) = Val d ->
                is_transcript d = true ->
                dict_get (lit "method") d = Some (lit "asr")
                /\ asr_invoked st = true).
Proof.
  cbv zeta. unfold outcome_fallback. cbv zeta.
  destruct (snd (audio_run W event)) as [e|].
  { split; [eexists; reflexivity|]. split; [|discriminate].
    split; [discriminate | intros [H _]; discriminate]. }
  destruct (audio_files W event) as [|p ps].
  { split; [eexists; reflexivity|]. split; [|discriminate].
    split; [discriminate | intros [_ H]; congruence]. }
  assert (A : (asr_invoked
                 (final ([manual_call (request_url event) (tmpdir W) (request_lang event);
                          auto_call (request_url event) (tmpdir W) (request_lang event);
                          audio_call (request_url event) (tmpdir W)]
                         ++ [asr_call W p])) = true)) by reflexivity.
  destruct (asr_run W event p) as [e|segs].
  { split; [eexists; reflexivity|]. split; [|discriminate].
    split; [intros _; split; [reflexivity | discriminate] | intros _; exact A]. }
  destruct (asr_text segs) as [|c t]; cbn [fst snd].
  - split; [eexists; reflexivity|]. split.
    + split; [intros _; split; [reflexivity | discriminate] | intros _; exact A].
    + intros d [= <-]. discriminate.
  - split; [eexists; reflexivity|]. split.
    + split; [intros _; split; [reflexivity | discriminate] | intros _; exact A].
    + intros d [= <-] _. split; [reflexivity | exact A].
Qed.

(** C2, as amended.  The caption runs come first.  The second tier (the
    audio run, then the speech model) is entered exactly when the caption
    tier yields no asset or an empty text; the speech model itself is
    called exactly when, moreover, the audio run ends well and leaves a
    file.  Caption text that is not empty is returned with the method
    ["subtitles"], with no audio run and no call of the speech model.
    Without an asset the audio run is made, and a transcript is returned
    only from the speech model. *)
Theorem handler_tier_order (U : UnicodeData) (W : World) (event : option Event) :
  request_url event <> [] ->
  let url := request_url event in
  let lang := request_lang event in
  let st := snd (run_handler U W event) in
  (exists rest, calls st = manual_call url (tmpdir W) lang
                           :: auto_call url (tmpdir W) lang :: rest)
  /\ (In (audio_call url (tmpdir W)) (calls st)
      <-> captions_usable U W event = false)
  /\ (asr_invoked st = true
      <-> captions_usable U W event = false
          /\ snd (audio_run W event) = None
          /\ audio_files W event <> [])
  /\ (forall text,
         caption_text U W event = Some text -> text <> [] ->
         fst (run_handler U W event)
         = Val (transcript_dict text (lit "subtitles") lang)
         /\ calls st = [manual_call url (tmpdir W) lang;
                        auto_call url (tmpdir W) lang]
         /\ asr_invoked st = false)
  /\ (caption_asset W event = None ->
      In (audio_call url (tmpdir W)) (calls st)
      /\ forall d, fst (run_handler U W event) = Val d ->
                   is_transcript d = true ->
                   dict_get (lit "method") d = Some (lit "asr")
                   /\ asr_invoked st = true).
Proof.
  intros Hu. cbv zeta. rewrite handler_outcome.
  pose proof (outcome_fallback_calls W event) as F. cbv zeta in F.
  destruct F as ((rest & Fc) & Fa & Fm).
  destruct (captions_usable U W event) eqn:Hc.
  - destruct (usable_text U W event Hc) as (text & Ht & Hne).
    rewrite (outcome_usable U W event text Hu Ht Hne). cbn [fst snd final calls].
    split; [eexists; reflexivity|].
    split; [split; [|discriminate]|].
    { intros [H|[H|[]]]; symmetry in H;
        now apply audio_call_not_caption in H. }
    split; [split; [discriminate | intros [H _]; discriminate]|].
    split.
    + intros text' Ht' _. rewrite Ht in Ht'. injection Ht' as <-.
      repeat split; reflexivity.
    + intros Hn. apply (no_asset_unusable U) in Hn. congruence.
  - rewrite (outcome_unusable U W event Hu Hc). rewrite Fc.
    split; [eexists; reflexivity|].
    split; [split; [reflexivity | intros _; right; right; now left]|].
    split; [rewrite Fa; tauto|].
    split.
    + intros text Ht Hne. exfalso. unfold captions_usable in Hc.
      rewrite Ht in Hc. destruct text; [congruence | discriminate].
    + intros _. split; [right; right; now left|].
      exact Fm.
Qed.

Lemma handler_tier_order_witness :
  asr_invoked (snd (run_handler ascii_data (world_asr [lit " Hello"; []; lit "world "])
                      (request sample_url None))) = true
  /\ fst (run_handler ascii_data
            (world_captions [(lit "subs.en.vtt", bonjour_vtt)] [lit "unused"])
            (request sample_url None))
     = Val (transcript_dict (lit "Bonjour") (lit "subtitles") (lit "en")).
Proof.
  split.
  - pose proof (handler_tier_order ascii_data
                  (world_asr [lit " Hello"; []; lit "world "])
                  (request sample_url None) ltac:(discriminate)) as H.
    cbv zeta in H. destruct H as (_ & _ & H & _).
    apply H. split; [reflexivity | split; [reflexivity | discriminate]].
  - pose proof (handler_tier_order ascii_data
                  (world_captions [(lit "subs.en.vtt", bonjour_vtt)] [lit "unused"])
                  (request sample_url None) ltac:(discriminate)) as H.
    cbv zeta in H. destruct H as (_ & _ & _ & H & _).
    apply (H (lit "Bonjour")); [vm_compute; reflexivity | discriminate].
Defined.

(** C2 as stated fails: the caption tier yields no asset and the speech
    model is not called, the audio run having failed. *)
Lemma handler_asr_not_invoked :
  caption_asset world_audio_fails (request sample_url None) = None
  /\ asr_invoked (snd (run_handler ascii_data world_audio_fails
                         (request sample_url None))) = false.
Proof. split; reflexivity. Qed.

(** ** The claim on [_download_subtitles] *)

Lemma find_first (f : str -> bool) (l : list str) (p : str) :
  find f l = Some p ->
  exists before after,
    l = before ++ p :: after /\ f p = true /\ existsb f before = false.
Proof.
  induction l as [|x l IH]; [discriminate|].
  cbn [find]. destruct (f x) eqn:E.
  - intros [= <-]. exists [], l. repeat split. exact E.
  - intros H. destruct (IH H) as (before & after & -> & Hp & Hb).
    exists (x :: before), after. repeat split; [exact Hp|].
    cbn [existsb]. now rewrite E.
Qed.

Lemma find_none_existsb (f : str -> bool) (l : list str) :
  find f l = None -> existsb f l = false.
Proof.
  induction l as [|x l IH]; [reflexivity|].
  cbn [find existsb]. destruct (f x); [discriminate | exact IH].
Qed.

Lemma existsb_first (f : str -> bool) (before after : list str) (p : str) :
  f p = true -> existsb f (before ++ p :: after) = true.
Proof.
  intros H. rewrite existsb_app. cbn [existsb]. rewrite H.
  now rewrite orb_true_r.
Qed.

(** C5, as amended.  After both caption runs the fetcher scans the working
    directory for [subs.*.vtt] and, only when nothing matches, for
    [*.vtt]; with no candidate it returns [None] and raises nothing; with
    candidates it returns the first one, in the order of the scan, whose
    path holds [.lang.] if there is one, and otherwise the first candidate
    in the order of the scan. *)
Theorem download_subtitles_picks (W : World) (url workdir lang : str) (st : State) :
  let d := subs_dir W url workdir lang (files st) in
  let strict := glob_star workdir (lit "subs.") (lit ".vtt") d in
  let broad := glob_star workdir [] (lit ".vtt") d in
  let cands := match strict with [] => broad | _ :: _ => strict end in
  calls (snd (_download_subtitles W url workdir lang st))
  = calls st ++ [manual_call url workdir lang; auto_call url workdir lang]
  /\ exists r,
      fst (_download_subtitles W url workdir lang st) = Val r
      /\ match r with
         | None => cands = []
         | Some p =>
             exists before after,
               cands = before ++ p :: after
               /\ if existsb (embeds lang) cands
                  then embeds lang p = true
                       /\ existsb (embeds lang) before = false
                  else before = []
         end.
Proof.
  cbv zeta. rewrite download_subtitles_run. cbn [fst snd calls].
  split; [reflexivity|]. eexists. split; [reflexivity|].
  set (d := subs_dir W url workdir lang (files st)).
  assert (C : match glob_star workdir (lit "subs.") (lit ".vtt") d with
              | [] => glob_star workdir [] (lit ".vtt") d
              | _ :: _ => glob_star workdir (lit "subs.") (lit ".vtt") d
              end = candidates workdir d).
  { unfold candidates.
    destruct (glob_star workdir (lit "subs.") (lit ".vtt") d); reflexivity. }
  rewrite C. clear C. unfold pick_vtt. fold (embeds lang).
  set (cands := candidates workdir d).
  destruct (find (embeds lang) cands) as [p|] eqn:F.
  - destruct (find_first _ _ _ F) as (before & after & E & Hp & Hb).
    exists before, after. split; [exact E|].
    rewrite E, (existsb_first _ _ _ _ Hp). now split.
  - apply find_none_existsb in F. rewrite F.
    destruct cands as [|p ps]; [reflexivity|].
    exists [], ps. now split.
Qed.

(** C5 as stated fails: no candidate names the language, and the file
    returned is the first of the scan, not the first in sorted order. *)
Lemma download_subtitles_not_sorted :
  fst (_download_subtitles world_fr_de sample_url (lit "/tmp/w") (lit "en") (fresh []))
  = Val (Some (lit "/tmp/w/subs.fr.vtt"))
  /\ existsb (embeds (lit "en"))
       (candidates (lit "/tmp/w")
          (subs_dir world_fr_de sample_url (lit "/tmp/w") (lit "en") []))
     = false
  /\ hd_error
       (sorted (candidates (lit "/tmp/w")
                  (subs_dir world_fr_de sample_url (lit "/tmp/w") (lit "en") [])))
     = Some (lit "/tmp/w/subs.de.vtt").
Proof. repeat split; vm_compute; reflexivity. Qed.

(* ================================================================== *)
(** * Part III.  Further properties of the code                        *)
(* ================================================================== *)

(** ** More on [_clean_text] *)

Lemma words_empty_iff (s : str) : words s = [] <-> forallb is_space s = true.
Proof.
  split; [|apply words_all_space].
  induction s as [|c r IH]; [reflexivity|].
  cbn [forallb]. destruct (is_space c) eqn:Ec.
  - rewrite words_skip by exact Ec. exact IH.
  - intros H. destruct (words_head c r Ec) as (w & ws & E). congruence.
Qed.

Lemma unwords_empty (ws : list str) :
  forallb is_word ws = true -> unwords ws = [] -> ws = [].
Proof.
  destruct ws as [|w ws]; [reflexivity|].
  cbn [forallb]. intros H. apply andb_true_iff in H as [Hw _].
  destruct w as [|c w]; [discriminate|].
  destruct ws; discriminate.
Qed.

(** A text in normal form is left as it is. *)
Lemma clean_text_fixed (s : str) :
  _clean_text (unwords (words s)) = unwords (words s).
Proof.
  rewrite clean_text_unwords.
  now rewrite words_unwords by apply words_are_words.
Qed.

(** X1.  [_clean_text] returns the empty string exactly for the strings
    made of whitespace only, the empty string among them. *)
Theorem clean_text_empty_iff (s : str) :
  _clean_text s = [] <-> forallb is_space s = true.
Proof.
  rewrite clean_text_unwords, <- words_empty_iff. split.
  - apply unwords_empty, words_are_words.
  - intros ->. reflexivity.
Qed.

(** ** More on [_parse_vtt_to_text] *)

(** X2.  What the parser returns is in normal form, with no whitespace at
    either end and none but single spaces, and [_clean_text] leaves it as
    it is: normalising the parser's result again, as a caller may, changes
    nothing. *)
Theorem parse_vtt_normal_form (U : UnicodeData) (vtt : str) :
  normalized (_parse_vtt_to_text U vtt) = true
  /\ _clean_text (_parse_vtt_to_text U vtt) = _parse_vtt_to_text U vtt.
Proof.
  unfold _parse_vtt_to_text. rewrite clean_text_unwords. split.
  - apply normalized_unwords, words_are_words.
  - apply clean_text_fixed.
Qed.

Lemma take_while_all (p : char -> bool) (t : str) :
  forallb p t = true -> take_while p t = t.
Proof.
  induction t as [|c r IH]; [reflexivity|].
  cbn [forallb take_while]. intros H. apply andb_true_iff in H as [Hc Hr].
  now rewrite Hc, IH.
Qed.

Lemma re_sub_tag_no_gt (p : option char) (t : str) :
  ~ In GT t -> re_sub_from tag_re [] 0 p t = t.
Proof.
  revert p. induction t as [|c r IH]; intros p H; [reflexivity|].
  cbn [In] in H. cbn [re_sub_from].
  assert (M : tag_re p (c :: r) = None).
  { unfold tag_re. destruct (N.eqb c LT); [|reflexivity]. cbv zeta.
    rewrite take_while_all by (apply forallb_not_in; tauto).
    destruct r as [|x r']; [reflexivity|]. now rewrite skipn_all. }
  rewrite M, IH by tauto. reflexivity.
Qed.

(** X3.  Taking the tags out leaves a line with no [<], or with no [>],
    as it is: a lone angle bracket in the text of a cue is kept. *)
Theorem re_sub_tag_unchanged (line : str) :
  ~ In LT line \/ ~ In GT line -> re_sub tag_re [] line = line.
Proof.
  intros [H|H]; unfold re_sub.
  - rewrite <- (app_nil_r line) at 1.
    rewrite re_sub_tag_copy by exact H. cbn [re_sub_from]. apply app_nil_r.
  - now apply re_sub_tag_no_gt.
Qed.

Lemma re_sub_tag_unchanged_witness :
  re_sub tag_re [] (lit "if a < b then") = lit "if a < b then"
  /\ re_sub tag_re [] (lit "x -> y") = lit "x -> y".
Proof.
  split.
  - apply (re_sub_tag_unchanged (lit "if a < b then")). right.
    vm_compute. intuition discriminate.
  - apply (re_sub_tag_unchanged (lit "x -> y")). left.
    vm_compute. intuition discriminate.
Defined.

Lemma replace_crlf_no_cr (t : str) : ~ In CR t -> replace_crlf t = t.
Proof.
  intros H. rewrite <- (app_nil_r t) at 1.
  rewrite replace_crlf_app by exact H. apply app_nil_r.
Qed.

Lemma in_join (x : char) (sep : str) (ls : list str) :
  In x (join sep ls) -> In x sep \/ exists l, In l ls /\ In x l.
Proof.
  induction ls as [|l ls IH]; [intros []|].
  destruct ls as [|l' ls'].
  - cbn [join]. intros H. right. exists l. split; [now left | exact H].
  - change (join sep (l :: l' :: ls')) with (l ++ sep ++ join sep (l' :: ls')).
    rewrite !in_app_iff. intros [H|[H|H]].
    + right. exists l. split; [now left | exact H].
    + now left.
    + destruct (IH H) as [H'|(m & Hm & Hx)]; [now left|].
      right. exists m. split; [now right | exact Hx].
Qed.

Lemma replace_crlf_join (ls : list str) :
  (forall l, In l ls -> ~ In CR l) ->
  replace_crlf (join [CR; LF] ls) = join [LF] ls.
Proof.
  induction ls as [|l ls IH]; [reflexivity|].
  intros H. destruct ls as [|l' ls'].
  - cbn [join]. apply replace_crlf_no_cr, H. now left.
  - change (join [CR; LF] (l :: l' :: ls'))
      with (l ++ CR :: LF :: join [CR; LF] (l' :: ls')).
    change (join [LF] (l :: l' :: ls'))
      with (l ++ LF :: join [LF] (l' :: ls')).
    rewrite replace_crlf_app by (apply H; now left).
    f_equal. cbn [replace_crlf]. cbn [N.eqb Pos.eqb andb CR LF].
    f_equal. apply IH. intros m Hm. apply H. now right.
Qed.

(** X4.  Line ends: a document whose lines end with CR LF is read as the
    same document with lines that end with LF. *)
Theorem parse_vtt_crlf (U : UnicodeData) (lines : list str) :
  (forall l, In l lines -> ~ In CR l) ->
  _parse_vtt_to_text U (join [CR; LF] lines)
  = _parse_vtt_to_text U (join [LF] lines).
Proof.
  intros H. unfold _parse_vtt_to_text.
  rewrite replace_crlf_join by exact H.
  rewrite replace_crlf_no_cr; [reflexivity|].
  intros Hin. apply in_join in Hin as [Hin|(l & Hl & Hx)].
  - cbn in Hin. intuition discriminate.
  - exact (H l Hl Hx).
Qed.

Lemma parse_vtt_crlf_witness :
  _parse_vtt_to_text ascii_data
    (join [CR; LF] [lit "WEBVTT"; []; lit "00:01.000 --> 00:02.000"; lit "Hi"])
  = _parse_vtt_to_text ascii_data
      (join [LF] [lit "WEBVTT"; []; lit "00:01.000 --> 00:02.000"; lit "Hi"]).
Proof.
  apply (parse_vtt_crlf ascii_data
           [lit "WEBVTT"; []; lit "00:01.000 --> 00:02.000"; lit "Hi"]).
  intros l Hl. vm_compute in Hl.
  repeat (destruct Hl as [<-|Hl]; [vm_compute; intuition discriminate|]).
  destruct Hl.
Defined.

(** ** NOTE blocks that a blank line ends *)

Lemma starts_with_app_end (kw x rest : str) :
  ~ In LF kw -> x <> [] -> last x LF = LF ->
  starts_with kw (x ++ rest) = starts_with kw x.
Proof.
  revert x. induction kw as [|k kw IH]; intros x Hk Hx Hl; [reflexivity|].
  destruct x as [|c x]; [congruence|].
  cbn [In] in Hk. cbn [app starts_with].
  destruct x as [|d x'].
  - cbn [last] in Hl. subst c.
    replace (N.eqb k LF) with false
      by (symmetry; apply N.eqb_neq; intros ->; tauto).
    reflexivity.
  - f_equal. apply IH; [tauto | discriminate | exact Hl].
Qed.

Lemma contains_tail (kw : str) (c : char) (t : str) :
  contains kw (c :: t) = false ->
  starts_with kw (c :: t) = false /\ contains kw t = false.
Proof. cbn [contains]. apply orb_false_iff. Qed.

Lemma note_re_prev (k : nat) (t : str) :
  re_sub_from note_re [] k (Some LF) t = re_sub_from note_re [] k None t.
Proof. destruct t, k; reflexivity. Qed.

Lemma last_cons_tail (c : char) (a : str) :
  last (c :: a) LF = LF -> last a LF = LF.
Proof. destruct a; [reflexivity | exact (fun H => H)]. Qed.

Lemma fold_last (a : str) (prev : option char) :
  a <> [] -> fold_left (fun _ c => Some c) a prev = Some (last a LF).
Proof.
  revert prev. induction a as [|c a IH]; intros prev H; [congruence|].
  cbn [fold_left]. destruct a as [|d a']; [reflexivity|].
  rewrite IH by discriminate. reflexivity.
Qed.

Lemma re_sub_note_copy_from (a rest : str) (prev : option char) :
  contains (lit "NOTE") a = false -> last a LF = LF ->
  re_sub_from note_re [] 0 prev (a ++ rest)
  = a ++ re_sub_from note_re [] 0 (fold_left (fun _ c => Some c) a prev) rest.
Proof.
  revert prev. induction a as [|c a IH]; intros prev Hc Hl; [reflexivity|].
  apply contains_tail in Hc as [Hs Hc].
  assert (M : note_re prev ((c :: a) ++ rest) = None).
  { assert (K : keyword_block (lit "NOTE") ((c :: a) ++ rest) = None).
    { unfold keyword_block. rewrite starts_with_app_end;
        [now rewrite Hs | vm_compute; intuition discriminate
         | discriminate | exact Hl]. }
    unfold note_re. destruct prev as [p|]; [|exact K].
    destruct (N.eqb p LF); [exact K | reflexivity]. }
  change (re_sub_from note_re [] 0 prev ((c :: a) ++ rest))
    with (match note_re prev ((c :: a) ++ rest) with
          | Some (S k) => [] ++ re_sub_from note_re [] k (Some c) (a ++ rest)
          | _ => c :: re_sub_from note_re [] 0 (Some c) (a ++ rest)
          end).
  rewrite M. cbn [app fold_left]. f_equal.
  apply IH; [exact Hc | now apply last_cons_tail in Hl].
Qed.

(** Text that holds no [NOTE] and ends a line is copied. *)
Lemma re_sub_note_copy (a rest : str) :
  contains (lit "NOTE") a = false -> last a LF = LF ->
  re_sub note_re [] (a ++ rest) = a ++ re_sub note_re [] rest.
Proof.
  intros Hc Hl. unfold re_sub. rewrite re_sub_note_copy_from by assumption.
  f_equal. destruct a as [|c a]; [reflexivity|].
  rewrite fold_last by discriminate. rewrite Hl. apply note_re_prev.
Qed.

(** A block from [NOTE] through the first blank line is taken out. *)
Lemma re_sub_note_block (n b : str) :
  contains [LF; LF] (n ++ [LF]) = false ->
  re_sub note_re [] (lit "NOTE" ++ n ++ [LF; LF] ++ b) = re_sub note_re [] b.
Proof.
  intros H. unfold re_sub at 1.
  assert (M : note_re None (lit "NOTE" ++ n ++ [LF; LF] ++ b)
              = Some (length (lit "NOTE" ++ n ++ [LF; LF]))).
  { unfold note_re, keyword_block.
    rewrite starts_with_app, skipn_length_app.
    cbn [app]. rewrite lazy_blank_first by exact H.
    cbn [option_map]. f_equal. rewrite !length_app. cbn [length]. lia. }
  remember (lit "NOTE") as kw eqn:Ekw.
  assert (Hkw : exists c kw', kw = c :: kw')
    by (rewrite Ekw; vm_compute; eauto).
  destruct Hkw as (c & kw' & ->).
  cbn [app re_sub_from] in *. rewrite M. cbn [length app].
  replace (kw' ++ n ++ LF :: LF :: b)
    with ((kw' ++ n ++ [LF; LF]) ++ b)
    by (rewrite <- !app_assoc; reflexivity).
  rewrite re_sub_from_skip.
  rewrite fold_last by (destruct kw'; discriminate).
  replace (last (kw' ++ n ++ [LF; LF]) LF) with LF.
  - apply note_re_prev.
  - rewrite app_assoc. change [LF; LF] with ([LF] ++ [LF]).
    rewrite app_assoc. now rewrite last_last.
Qed.

Lemma body_no_header (t : str) :
  starts_with (lit "WEBVTT") t = false ->
  body t = re_sub note_re [] (replace_crlf t).
Proof.
  intros H. unfold body. rewrite re_sub_header_none; [reflexivity|].
  rewrite starts_with_replace_crlf; [exact H | |];
    vm_compute; intuition discriminate.
Qed.

Lemma parse_vtt_body (U : UnicodeData) (s t : str) :
  body s = body t -> _parse_vtt_to_text U s = _parse_vtt_to_text U t.
Proof. intros H. rewrite !parse_vtt_words. now rewrite H. Qed.

(** X5.  A NOTE block that a blank line ends leaves no trace: where the
    text before it holds no [NOTE] and ends a line (or is empty), the
    block, from [NOTE] through the first blank line, is read as if it were
    not in the document. *)
Theorem parse_vtt_note_removed (U : UnicodeData) (a n b : str) :
  ~ In CR a -> ~ In CR n ->
  contains (lit "NOTE") a = false ->
  last a LF = LF ->
  contains [LF; LF] (n ++ [LF]) = false ->
  starts_with (lit "WEBVTT") (a ++ b) = false ->
  _parse_vtt_to_text U (a ++ lit "NOTE" ++ n ++ [LF; LF] ++ b)
  = _parse_vtt_to_text U (a ++ b).
Proof.
  intros Ha Hn Hc Hl Hb Hw. apply parse_vtt_body.
  assert (Hw' : starts_with (lit "WEBVTT") (a ++ lit "NOTE" ++ n ++ [LF; LF] ++ b)
                = false).
  { destruct a as [|c a']; [reflexivity|].
    rewrite starts_with_app_end in Hw
      by first [exact Hl | discriminate | vm_compute; intuition discriminate].
    rewrite starts_with_app_end
      by first [exact Hl | discriminate | vm_compute; intuition discriminate].
    exact Hw. }
  rewrite !body_no_header by assumption.
  replace (a ++ lit "NOTE" ++ n ++ [LF; LF] ++ b)
    with ((a ++ lit "NOTE" ++ n ++ [LF; LF]) ++ b)
    by (rewrite <- !app_assoc; reflexivity).
  rewrite !replace_crlf_app.
  - rewrite <- !app_assoc.
    rewrite (re_sub_note_copy a (replace_crlf b) Hc Hl).
    rewrite (re_sub_note_copy a _ Hc Hl).
    now rewrite re_sub_note_block.
  - exact Ha.
  - rewrite !in_app_iff. intros [H|[H|[H|H]]]; [tauto | | tauto |];
      revert H; vm_compute; intuition discriminate.
Qed.

Lemma parse_vtt_note_removed_witness :
  _parse_vtt_to_text ascii_data
    (lit "Hello\n\n" ++ lit "NOTE" ++ lit " a remark\nof two lines"
     ++ [LF; LF] ++ lit "Bye\n")
  = _parse_vtt_to_text ascii_data (lit "Hello\n\n" ++ lit "Bye\n").
Proof.
  apply (parse_vtt_note_removed ascii_data (lit "Hello\n\n")
           (lit " a remark\nof two lines") (lit "Bye\n"));
    try reflexivity; vm_compute; intuition discriminate.
Defined.

Lemma kept_lines_no_text (U : UnicodeData) (ls : list str) :
  (forall l, In l ls ->
             strip l = []
             \/ contains (lit "-->") (strip l) = true
             \/ fullmatch_digits U (strip l) = true) ->
  flat_map (fun l => words (re_sub tag_re [] l))
           (filter (kept U) (map strip ls)) = [].
Proof.
  induction ls as [|l ls IH]; intros H; [reflexivity|].
  cbn [map filter].
  assert (Hl := H l (or_introl eq_refl)).
  assert (IH' := IH (fun m Hm => H m (or_intror Hm))).
  unfold kept at 1. destruct Hl as [Hl|[Hl|Hl]].
  - rewrite Hl. exact IH'.
  - rewrite Hl. exact IH'.
  - rewrite Hl, andb_false_r. exact IH'.
Qed.

(** X6.  A document in which every line, once trimmed, is empty, holds
    ["-->"] or is made of digits only has no text: the parser returns the
    empty string. *)
Theorem parse_vtt_no_text (U : UnicodeData) (vtt : str) :
  (forall l, In l (split_lines (body vtt)) ->
             strip l = []
             \/ contains (lit "-->") (strip l) = true
             \/ fullmatch_digits U (strip l) = true) ->
  _parse_vtt_to_text U vtt = [].
Proof.
  intros H. rewrite parse_vtt_words.
  now rewrite kept_lines_no_text.
Qed.

Lemma parse_vtt_no_text_witness :
  _parse_vtt_to_text ascii_data
    (lit "WEBVTT\n\n1\n00:00:01.000 --> 00:00:02.000\n  \n\n2\n")
  = [].
Proof.
  apply (parse_vtt_no_text ascii_data).
  intros l Hl. vm_compute in Hl.
  repeat (destruct Hl as [<-|Hl];
          [first [left; reflexivity
                 | right; left; reflexivity
                 | right; right; reflexivity]|]).
  destruct Hl.
Defined.

(** ** More on [_download_subtitles] and [_download_audio] *)

Lemma glob_star_entry (workdir pre suf : str) (d : Dir) (p : str) :
  In p (glob_star workdir pre suf d) ->
  exists name, In name (map fst d)
               /\ p = path_join workdir name
               /\ starts_with [DOT] name = false
               /\ fnmatch_star pre suf name = true.
Proof.
  unfold glob_star. rewrite in_map_iff. intros (name & <- & H).
  apply filter_In in H as [H M]. apply andb_true_iff in M as [Hd M].
  apply negb_true_iff in Hd. eauto.
Qed.

Lemma fnmatch_star_parts (pre suf name : str) :
  fnmatch_star pre suf name = true ->
  starts_with pre name = true /\ ends_with suf name = true.
Proof.
  unfold fnmatch_star. intros H. apply andb_true_iff in H as [H _].
  now apply andb_true_iff in H.
Qed.

Lemma find_same_path (workdir name : str) (d : Dir) :
  In name (map fst d) ->
  exists raw, file_text workdir d (path_join workdir name) = Some raw.
Proof.
  intros H. apply in_map_iff in H as (e & <- & He). unfold file_text.
  destruct (find (fun e0 => str_eqb (path_join workdir (fst e0))
                                    (path_join workdir (fst e))) d) eqn:F.
  - cbn [option_map]. eauto.
  - apply (find_none _ _ F) in He. cbv beta in He.
    now rewrite str_eqb_refl in He.
Qed.

(** X7.  A path that [_download_subtitles] returns names an entry of the
    working directory as the two runs left it: one whose name ends with
    [.vtt] and does not start with a dot, whose text can be read; the path
    is not empty.  When an entry matches [subs.*.vtt] the entry returned
    matches it too: other [.vtt] files are then left aside. *)
Theorem download_subtitles_result (W : World) (url workdir lang : str)
        (st : State) (p : str) :
  fst (_download_subtitles W url workdir lang st) = Val (Some p) ->
  let d := files (snd (_download_subtitles W url workdir lang st)) in
  exists name,
    In name (map fst d)
    /\ p = path_join workdir name
    /\ ends_with (lit ".vtt") name = true
    /\ starts_with [DOT] name = false
    /\ truthy p = true
    /\ (exists raw, file_text workdir d p = Some raw)
    /\ (glob_star workdir (lit "subs.") (lit ".vtt") d <> [] ->
        starts_with (lit "subs.") name = true).
Proof.
  rewrite download_subtitles_run. cbn [fst snd files]. cbv zeta.
  set (d := subs_dir W url workdir lang (files st)).
  intros [= H]. apply pick_vtt_in in H. unfold candidates in H.
  assert (G : exists pre,
             In p (glob_star workdir pre (lit ".vtt") d)
             /\ (glob_star workdir (lit "subs.") (lit ".vtt") d <> [] ->
                 pre = lit "subs.")).
  { destruct (glob_star workdir (lit "subs.") (lit ".vtt") d) eqn:E.
    - exists []. split; [exact H | congruence].
    - exists (lit "subs."). rewrite E. split; [exact H | reflexivity]. }
  destruct G as (pre & G & Hpre).
  apply glob_star_entry in G as (name & Hn & -> & Hd & M).
  apply fnmatch_star_parts in M as [Mp Ms].
  exists name. repeat split; try assumption.
  - apply path_join_truthy. destruct name; [discriminate | reflexivity].
  - now apply find_same_path.
  - intros Hne. rewrite (Hpre Hne) in Mp. exact Mp.
Qed.

Lemma download_subtitles_result_witness :
  exists name,
    In name (map fst (files (snd (_download_subtitles
                                    (world_captions [(lit "video.en.vtt", bonjour_vtt);
                                                     (lit "subs.fr.vtt", bonjour_vtt)] [])
                                    sample_url (lit "/tmp/w") (lit "en") (fresh [])))))
    /\ lit "/tmp/w/subs.fr.vtt" = path_join (lit "/tmp/w") name.
Proof.
  destruct (download_subtitles_result
              (world_captions [(lit "video.en.vtt", bonjour_vtt);
                               (lit "subs.fr.vtt", bonjour_vtt)] [])
              sample_url (lit "/tmp/w") (lit "en") (fresh [])
              (lit "/tmp/w/subs.fr.vtt") eq_refl)
    as (name & H1 & H2 & _).
  exists name. split; assumption.
Defined.

(** X8.  [_download_audio] makes one run of [yt-dlp], with the time limit
    of 180.  If the run fails its exception is raised, whatever lies in
    the directory; a path is returned only after a run that ended well,
    and it names the first entry of the scan whose name starts with
    [audio.]; a run that ended well and left no such entry raises
    [RuntimeError]. *)
Theorem download_audio_result (W : World) (url workdir : str) (st : State) :
  let run := yt_dlp W (audio_cmd (path_join workdir (lit "audio.%(ext)s")) url)
                    180 (files st) in
  let r := _download_audio W url workdir st in
  calls (snd r) = calls st ++ [audio_call url workdir]
  /\ files (snd r) = fst run
  /\ (forall e, snd run = Some e -> fst r = Exc e)
  /\ (forall p, fst r = Val p ->
                snd run = None
                /\ hd_error (glob_star workdir (lit "audio.") [] (fst run)) = Some p
                /\ exists name, In name (map fst (fst run))
                                /\ p = path_join workdir name
                                /\ starts_with (lit "audio.") name = true)
  /\ (snd run = None ->
      glob_star workdir (lit "audio.") [] (fst run) = [] ->
      fst r = Exc (RuntimeError (lit "Audio download produced no file"))).
Proof.
  cbv zeta. rewrite download_audio_run. cbv zeta.
  set (run := yt_dlp W _ 180 (files st)).
  destruct (snd run) as [e|] eqn:E.
  - split; [reflexivity|]. split; [reflexivity|].
    split; [intros e' [= <-]; reflexivity|].
    split; [intros p H; discriminate | intros H; discriminate].
  - destruct (glob_star workdir (lit "audio.") [] (fst run)) as [|q qs] eqn:G.
    + split; [reflexivity|]. split; [reflexivity|].
      split; [intros e' H; discriminate|].
      split; [intros p H; discriminate | reflexivity].
    + split; [reflexivity|]. split; [reflexivity|].
      split; [intros e' H; discriminate|].
      split; [|intros _ H; discriminate].
      intros p [= <-]. split; [reflexivity|]. split; [reflexivity|].
      assert (Hin : In q (glob_star workdir (lit "audio.") [] (fst run)))
        by (rewrite G; now left).
      apply glob_star_entry in Hin as (name & Hn & -> & _ & M).
      apply fnmatch_star_parts in M as [Mp _]. eauto.
Qed.

Lemma download_audio_result_witness :
  fst (_download_audio world_audio_fails sample_url (lit "/tmp/w")
         {| files := [(lit "audio.webm", lit "(left over)")];
            tmp_live := true; calls := [] |})
  = Exc CalledProcessError.
Proof.
  pose proof (download_audio_result world_audio_fails sample_url (lit "/tmp/w")
                {| files := [(lit "audio.webm", lit "(left over)")];
                   tmp_live := true; calls := [] |}) as H.
  cbv zeta in H. destruct H as (_ & _ & H & _).
  apply H. reflexivity.
Defined.

(** ** More on [_transcribe_with_faster_whisper] *)

Lemma flat_map_words_truthy (segments : list str) :
  flat_map words (filter truthy segments) = flat_map words segments.
Proof.
  induction segments as [|x l IH]; [reflexivity|].
  cbn [filter flat_map]. destruct x as [|c x]; cbn [truthy].
  - exact IH.
  - cbn [flat_map]. now rewrite IH.
Qed.

(** The text of the segments is their words, in order. *)
Lemma asr_text_words (segments : list str) :
  asr_text segments = unwords (flat_map words segments).
Proof.
  unfold asr_text.
  now rewrite clean_text_unwords, words_join, flat_map_words_truthy.
Qed.

Lemma flat_map_words_are_words (ls : list str) :
  forallb is_word (flat_map words ls) = true.
Proof.
  induction ls as [|l ls IH]; [reflexivity|].
  cbn [flat_map]. now rewrite forallb_app, words_are_words, IH.
Qed.

(** X9.  When the speech model yields its segments, the transcript is
    their words, in the order of the segments, with single spaces: empty
    segments and segments of whitespace add nothing, and the spaces the
    model puts around a segment do not double.  The model is called once,
    on the given file, and the directory is left as it was. *)
Theorem transcribe_result (W : World) (audio_path : str) (st : State)
        (segments : list str) :
  asr_run_in W (files st) audio_path = inr segments ->
  _transcribe_with_faster_whisper W audio_path st
  = (Val (unwords (flat_map words segments)),
     with_call st (files st) (asr_call W audio_path))
  /\ normalized (unwords (flat_map words segments)) = true.
Proof.
  intros H. rewrite transcribe_run. cbv zeta. unfold asr_run_in in H.
  rewrite H, asr_text_words. split; [reflexivity|].
  apply normalized_unwords, flat_map_words_are_words.
Qed.

Lemma transcribe_result_witness :
  fst (_transcribe_with_faster_whisper
         (world_asr [lit " Hello"; []; lit "  "; lit " big  world "])
         (lit "/tmp/w/audio.webm") (fresh []))
  = Val (lit "Hello big world").
Proof.
  destruct (transcribe_result
              (world_asr [lit " Hello"; []; lit "  "; lit " big  world "])
              (lit "/tmp/w/audio.webm") (fresh [])
              [lit " Hello"; []; lit "  "; lit " big  world "] eq_refl)
    as [H _].
  rewrite H. reflexivity.
Defined.

(** ** More on [handler] *)

Lemma parse_vtt_as_words (U : UnicodeData) (vtt : str) :
  exists s, _parse_vtt_to_text U vtt = unwords (words s).
Proof.
  unfold _parse_vtt_to_text. eexists. apply clean_text_unwords.
Qed.

Lemma caption_text_parsed (U : UnicodeData) (W : World) (event : option Event)
      (text : str) :
  caption_text U W event = Some text ->
  exists raw, text = _parse_vtt_to_text U raw.
Proof.
  unfold caption_text. destruct (caption_asset W event) as [p|]; [|discriminate].
  destruct (file_text _ _ p) as [raw|]; [|discriminate].
  intros [= <-]. eauto.
Qed.

Lemma transcript_dict_text (text method lang : str) :
  dict_get (lit "transcript") (transcript_dict text method lang) = Some text.
Proof. reflexivity. Qed.

(** The text of a returned transcript record: not empty, and the words of
    some text with single spaces. *)
Lemma outcome_text (U : UnicodeData) (W : World) (event : option Event)
      (d : Dict) (st : State) (text : str) :
  outcome U W event = (Val d, st) ->
  dict_get (lit "transcript") d = Some text ->
  text <> [] /\ exists s, text = unwords (words s).
Proof.
  unfold outcome. cbv zeta.
  destruct (negb (truthy (request_url event))).
  { intros [= <- <-]. discriminate. }
  assert (FB : outcome_fallback W event = (Val d, st) ->
               dict_get (lit "transcript") d = Some text ->
               text <> [] /\ exists s, text = unwords (words s)).
  { unfold outcome_fallback. cbv zeta.
    destruct (snd (audio_run W event)); [discriminate|].
    destruct (audio_files W event) as [|p ps]; [discriminate|].
    destruct (asr_run W event p) as [e|segs]; [discriminate|].
    destruct (asr_text segs) as [|c t] eqn:E; intros [= <- <-]; [discriminate|].
    rewrite transcript_dict_text. intros [= <-].
    split; [discriminate|]. rewrite <- E. unfold asr_text.
    eexists. apply clean_text_unwords. }
  destruct (caption_text U W event) as [[|c t]|] eqn:C; try exact FB.
  intros [= <- <-]. rewrite transcript_dict_text. intros [= <-].
  split; [discriminate|].
  destruct (caption_text_parsed U W event _ C) as (raw & ->).
  apply parse_vtt_as_words.
Qed.

(** X10.  The transcript of a returned record, from captions or from the
    speech model, is never empty and is in normal form: no whitespace at
    either end, none but single spaces, unchanged by [_clean_text]. *)
Theorem handler_transcript_text (U : UnicodeData) (W : World)
        (event : option Event) (d : Dict) (st : State) (text : str) :
  run_handler U W event = (Val d, st) ->
  dict_get (lit "transcript") d = Some text ->
  text <> [] /\ normalized text = true /\ _clean_text text = text.
Proof.
  rewrite handler_outcome. intros H T.
  destruct (outcome_text U W event d st text H T) as (Hne & s & ->).
  split; [exact Hne|]. split.
  - apply normalized_unwords, words_are_words.
  - apply clean_text_fixed.
Qed.

Lemma handler_transcript_text_witness :
  lit "Hello big world" <> []
  /\ normalized (lit "Hello big world") = true
  /\ _clean_text (lit "Hello big world") = lit "Hello big world".
Proof.
  apply (handler_transcript_text ascii_data
           (world_asr [lit " Hello"; []; lit " big  world "])
           (request sample_url None)
           (transcript_dict (lit "Hello big world") (lit "asr") (lit "en"))
           (final [manual_call sample_url (lit "/tmp/tmpk3v9x0qa") (lit "en");
                   auto_call sample_url (lit "/tmp/tmpk3v9x0qa") (lit "en");
                   audio_call sample_url (lit "/tmp/tmpk3v9x0qa");
                   asr_call (world_asr [lit " Hello"; []; lit " big  world "])
                            (lit "/tmp/tmpk3v9x0qa/audio.webm")])
           (lit "Hello big world")).
  - vm_compute. reflexivity.
  - reflexivity.
Defined.

(** X11.  The calls of one request: none; or the two caption runs; or
    these and the audio run; or these and one call of the speech model, on
    the first audio file of the scan.  Nothing is tried twice, and the
    model is never called before the three runs. *)
Theorem handler_calls (U : UnicodeData) (W : World) (event : option Event) :
  let url := request_url event in
  let lang := request_lang event in
  let cs := calls (snd (run_handler U W event)) in
  let captions := [manual_call url (tmpdir W) lang; auto_call url (tmpdir W) lang] in
  cs = []
  \/ cs = captions
  \/ cs = captions ++ [audio_call url (tmpdir W)]
  \/ exists audio_path rest,
       audio_files W event = audio_path :: rest
       /\ cs = captions ++ [audio_call url (tmpdir W); asr_call W audio_path].
Proof.
  cbv zeta. rewrite handler_outcome. unfold outcome. cbv zeta.
  destruct (negb (truthy (request_url event))); [now left|].
  assert (FB :
    calls (snd (outcome_fallback W event))
    = [manual_call (request_url event) (tmpdir W) (request_lang event);
       auto_call (request_url event) (tmpdir W) (request_lang event)]
      ++ [audio_call (request_url event) (tmpdir W)]
    \/ exists audio_path rest,
         audio_files W event = audio_path :: rest
         /\ calls (snd (outcome_fallback W event))
            = [manual_call (request_url event) (tmpdir W) (request_lang event);
               auto_call (request_url event) (tmpdir W) (request_lang event)]
              ++ [audio_call (request_url event) (tmpdir W); asr_call W audio_path]).
  { unfold outcome_fallback. cbv zeta.
    destruct (snd (audio_run W event)); [now left|].
    destruct (audio_files W event) as [|p ps]; [now left|].
    right. exists p, ps. split; [reflexivity|].
    destruct (asr_run W event p) as [e|segs]; [reflexivity|].
    destruct (asr_text segs); reflexivity. }
  destruct (caption_text U W event) as [[|c t]|];
    try (right; right; exact FB).
  right. now left.
Qed.

(** X12.  The handler reads nothing of the event but the trimmed URL and
    the language of the request: two events that agree on these end the
    same way, with the same calls.  So whitespace around the URL or the
    hint does not matter, and no hint is the same as ["en"]. *)
Theorem handler_reads_url_and_lang (U : UnicodeData) (W : World)
        (e1 e2 : option Event) :
  request_url e1 = request_url e2 ->
  request_lang e1 = request_lang e2 ->
  run_handler U W e1 = run_handler U W e2.
Proof.
  intros Hu Hl. rewrite !handler_outcome.
  unfold outcome, outcome_fallback, caption_text, caption_asset, caption_dir,
    audio_files, asr_run, audio_run, caption_dir.
  cbv zeta. now rewrite Hu, Hl.
Qed.

Lemma handler_reads_url_and_lang_witness :
  run_handler ascii_data (world_asr [lit "Hello"])
    (request (lit "  https://youtu.be/dQw4w9WgXcQ\n") None)
  = run_handler ascii_data (world_asr [lit "Hello"])
      (request sample_url (Some (lit " en "))).
Proof.
  apply (handler_reads_url_and_lang ascii_data (world_asr [lit "Hello"])
           (request (lit "  https://youtu.be/dQw4w9WgXcQ\n") None)
           (request sample_url (Some (lit " en ")))); reflexivity.
Defined.

(** ** Documents with no blank line *)

Lemma contains_suffix (kw t : str) (k : nat) :
  contains kw t = false -> contains kw (skipn k t) = false.
Proof.
  revert t. induction k as [|k IH]; intros t H; [exact H|].
  destruct t as [|c t]; [exact H|].
  cbn [skipn]. apply IH. now apply contains_tail in H.
Qed.

Lemma lazy_blank_none (t : str) :
  contains [LF; LF] t = false -> lazy_blank t = None.
Proof.
  induction t as [|c r IH]; [reflexivity|].
  intros H. apply contains_tail in H as [Hs Hr].
  cbn [lazy_blank]. destruct r as [|d r']; [reflexivity|].
  cbn [starts_with] in Hs. rewrite andb_true_r in Hs.
  rewrite (N.eqb_sym LF c), (N.eqb_sym LF d) in Hs. rewrite Hs.
  now rewrite IH.
Qed.

Lemma keyword_block_none (kw t : str) :
  contains [LF; LF] t = false -> keyword_block kw t = None.
Proof.
  intros H. unfold keyword_block. destruct (starts_with kw t); [|reflexivity].
  now rewrite lazy_blank_none by now apply contains_suffix.
Qed.

Lemma re_sub_no_blank (m : matcher) (t : str) (prev : option char) :
  (forall p s, contains [LF; LF] s = false -> m p s = None) ->
  contains [LF; LF] t = false ->
  re_sub_from m [] 0 prev t = t.
Proof.
  intros Hm. revert prev. induction t as [|c r IH]; intros prev H; [reflexivity|].
  cbn [re_sub_from]. rewrite (Hm prev (c :: r) H).
  f_equal. apply IH. now apply contains_tail in H.
Qed.

Lemma body_no_blank (vtt : str) :
  contains [LF; LF] (replace_crlf vtt) = false ->
  body vtt = replace_crlf vtt.
Proof.
  intros H. unfold body, re_sub.
  assert (Hh : forall p s, contains [LF; LF] s = false -> header_re p s = None).
  { intros [p|] s Hs; [reflexivity | now apply keyword_block_none]. }
  assert (Hn : forall p s, contains [LF; LF] s = false -> note_re p s = None).
  { intros [p|] s Hs; unfold note_re;
      [destruct (N.eqb p LF); [|reflexivity]|]; now apply keyword_block_none. }
  rewrite (re_sub_no_blank header_re _ None Hh H).
  exact (re_sub_no_blank note_re _ None Hn H).
Qed.

(** X13.  Without a blank line nothing is taken out as a block: a
    document in which no two newlines follow each other keeps its
    [WEBVTT] line and its NOTE lines, which are read as lines of text like
    the others. *)
Theorem parse_vtt_no_blank_line (U : UnicodeData) (vtt : str) :
  contains [LF; LF] (replace_crlf vtt) = false ->
  _parse_vtt_to_text U vtt
  = unwords
      (flat_map (fun l => words (re_sub tag_re [] l))
         (filter (fun l => negb (contains (lit "-->") l)
                           && negb (fullmatch_digits U l))
                 (map strip (split_lines (replace_crlf vtt))))).
Proof.
  intros H. rewrite parse_vtt_words. now rewrite body_no_blank.
Qed.

Lemma parse_vtt_no_blank_line_witness :
  _parse_vtt_to_text ascii_data
    (lit "WEBVTT\n00:00:01.000 --> 00:00:02.000\nHello\nNOTE kept\n")
  = lit "WEBVTT Hello NOTE kept".
Proof.
  rewrite (parse_vtt_no_blank_line ascii_data
             (lit "WEBVTT\n00:00:01.000 --> 00:00:02.000\nHello\nNOTE kept\n"))
    by reflexivity.
  reflexivity.
Defined.
